(** * Validation engine of data-alchemist-configurator

    A shallow embedding of [src/src/lib/validations/validator.ts]: the
    entity types of [src/src/types/index.ts], the ten validation rules and
    [validateDataSet], followed by the properties of the engine. *)

From Stdlib Require Import String Ascii List ZArith Bool Lia Permutation.
From Stdlib Require Import DecimalString DecimalZ.
Import ListNotations.

Local Open Scope Z_scope.
Local Set Warnings "-register-all".

(** ** JavaScript values *)

(** The run-time value of a field typed [Record<string, any>]: once a cell
    has gone through [JSON.parse] it may hold any JSON value. *)
Inductive jsval : Type :=
| JNull
| JBool (b : bool)
| JNum (n : Z)
| JStr (s : string)
| JArr (xs : list jsval)
| JObj (kvs : list (string * jsval)).

(** [String(n)] for an integral number [n]: decimal digits, with a leading
    minus sign for negative numbers. *)
Definition js_num_string (n : Z) : string :=
  NilEmpty.string_of_int (Z.to_int n).

(** ** Entities ([src/src/types/index.ts]) *)

Record Client := mkClient {
  ClientID : string;
  ClientName : string;
  PriorityLevel : Z;
  RequestedTaskIDs : list string;
  GroupTag : string;
  AttributesJSON : jsval
}.

Record Worker := mkWorker {
  WorkerID : string;
  WorkerName : string;
  Skills : list string;
  AvailableSlots : list Z;
  MaxLoadPerPhase : Z;
  WorkerGroup : string;
  QualificationLevel : string
}.

Record Task := mkTask {
  TaskID : string;
  TaskName : string;
  Category : string;
  Duration : Z;
  RequiredSkills : list string;
  PreferredPhases : list Z;
  MaxConcurrent : Z
}.

Inductive ErrType := TError | TWarning.
Inductive EntityType := EClient | EWorker | ETask.
Inductive Severity := SLow | SMedium | SHigh.

Record ValidationError := mkVE {
  id : string;
  type : ErrType;
  message : string;
  field : option string;
  entityType : EntityType;
  entityId : string;
  severity : Severity
}.

Record ValidationResult := mkVR {
  isValid : bool;
  errors : list ValidationError;
  warnings : list ValidationError
}.

Record DataSet := mkDataSet {
  clients : list Client;
  workers : list Worker;
  tasks : list Task
}.

Definition ErrType_eqb (a b : ErrType) : bool :=
  match a, b with
  | TError, TError | TWarning, TWarning => true
  | _, _ => false
  end.

(** [arr.forEach((x, index) => ...)] pushing onto a shared array:
    the pushes of each element, in order, with the element's index. *)
Fixpoint flat_mapi_from {A B : Type} (i : nat) (f : nat -> A -> list B)
    (l : list A) : list B :=
  match l with
  | [] => []
  | x :: l' => f i x ++ flat_mapi_from (S i) f l'
  end.

Definition flat_mapi {A B : Type} (f : nat -> A -> list B) (l : list A) :=
  flat_mapi_from 0 f l.

(** [Set.has] / [Array.includes] on strings. *)
Definition str_mem (x : string) (l : list string) : bool :=
  existsb (String.eqb x) l.

(** ** Rule 1: missing required columns *)

(** The value of a field read through [obj[field as keyof T]]. *)
Inductive fieldval := FStr (s : string) | FNum (n : Z) | FArr (len : nat).

(** [!v || (Array.isArray(v) && v.length === 0)]: the empty string and
    the number 0 are falsy; arrays are truthy, so only their length counts. *)
Definition is_missing (v : fieldval) : bool :=
  match v with
  | FStr s => String.eqb s ""
  | FNum n => Z.eqb n 0
  | FArr n => Nat.eqb n 0
  end.

Definition requiredClientFields := ["ClientID"; "ClientName"; "PriorityLevel"]%string.
Definition requiredWorkerFields :=
  ["WorkerID"; "WorkerName"; "Skills"; "AvailableSlots"]%string.
Definition requiredTaskFields :=
  ["TaskID"; "TaskName"; "Duration"; "RequiredSkills"]%string.

Definition client_get (c : Client) (f : string) : fieldval :=
  if String.eqb f "ClientID" then FStr (ClientID c)
  else if String.eqb f "ClientName" then FStr (ClientName c)
  else FNum (PriorityLevel c).

Definition worker_get (w : Worker) (f : string) : fieldval :=
  if String.eqb f "WorkerID" then FStr (WorkerID w)
  else if String.eqb f "WorkerName" then FStr (WorkerName w)
  else if String.eqb f "Skills" then FArr (length (Skills w))
  else FArr (length (AvailableSlots w)).

Definition task_get (t : Task) (f : string) : fieldval :=
  if String.eqb f "TaskID" then FStr (TaskID t)
  else if String.eqb f "TaskName" then FStr (TaskName t)
  else if String.eqb f "Duration" then FNum (Duration t)
  else FArr (length (RequiredSkills t)).

(** [x.ID || `Row ${index + 1}`] *)
Definition id_or_row (ident : string) (index : nat) : string :=
  if String.eqb ident "" then ("Row " ++ js_num_string (Z.of_nat (S index)))%string
  else ident.

Definition missing_finding (kind : string) (et : EntityType) (ident : string)
    (index : nat) (f : string) : ValidationError :=
  {| id := ("missing-" ++ kind ++ "-" ++ f ++ "-" ++ js_num_string (Z.of_nat index))%string;
     type := TError;
     message := ("Missing required field: " ++ f)%string;
     field := Some f;
     entityType := et;
     entityId := id_or_row ident index;
     severity := SHigh |}.

Definition validateMissingRequiredColumns (data : DataSet) : list ValidationError :=
  flat_mapi (fun index client =>
    flat_map (fun f =>
      if is_missing (client_get client f)
      then [missing_finding "client" EClient (ClientID client) index f] else [])
      requiredClientFields) (clients data)
  ++ flat_mapi (fun index worker =>
    flat_map (fun f =>
      if is_missing (worker_get worker f)
      then [missing_finding "worker" EWorker (WorkerID worker) index f] else [])
      requiredWorkerFields) (workers data)
  ++ flat_mapi (fun index task =>
    flat_map (fun f =>
      if is_missing (task_get task f)
      then [missing_finding "task" ETask (TaskID task) index f] else [])
      requiredTaskFields) (tasks data).

(** ** Rule 2: duplicate IDs *)

(** A JS [Map<string, number>] kept in insertion order. *)
Definition idmap := list (string * nat).

Definition idmap_has (m : idmap) (k : string) : bool :=
  existsb (fun kv => String.eqb (fst kv) k) m.

(** [entities.forEach((e, index) => { if (e.ID) { if (ids.has(e.ID)) push
    else ids.set(e.ID, index) } })]; [set] of an absent key appends it. *)
Fixpoint dup_scan {A : Type} (getId : A -> string)
    (mk : string -> ValidationError) (ids : idmap) (index : nat)
    (l : list A) : list ValidationError :=
  match l with
  | [] => []
  | e :: l' =>
      let k := getId e in
      if String.eqb k "" then dup_scan getId mk ids (S index) l'
      else if idmap_has ids k then mk k :: dup_scan getId mk ids (S index) l'
      else dup_scan getId mk (ids ++ [(k, index)]) (S index) l'
  end.

Definition dup_finding (kind fieldName : string) (et : EntityType) (ident : string)
    : ValidationError :=
  {| id := ("duplicate-" ++ kind ++ "-" ++ ident)%string;
     type := TError;
     message := ("Duplicate " ++ fieldName ++ ": " ++ ident)%string;
     field := Some fieldName;
     entityType := et;
     entityId := ident;
     severity := SHigh |}.

Definition validateDuplicateIDs (data : DataSet) : list ValidationError :=
  dup_scan ClientID (dup_finding "client" "ClientID" EClient) [] 0 (clients data)
  ++ dup_scan WorkerID (dup_finding "worker" "WorkerID" EWorker) [] 0 (workers data)
  ++ dup_scan TaskID (dup_finding "task" "TaskID" ETask) [] 0 (tasks data).

(** ** Rule 3: malformed lists *)

(** Slots are integers here: the record normaliser drops every entry that
    parses to NaN, so [isNaN(slot)] is false and the test is [slot < 1]. *)
Definition validateMalformedLists (data : DataSet) : list ValidationError :=
  flat_map (fun worker =>
    flat_map (fun slot =>
      if slot <? 1 then
        [{| id := ("malformed-slots-" ++ WorkerID worker)%string;
            type := TError;
            message := ("Invalid AvailableSlot value: " ++ js_num_string slot
                        ++ ". Must be positive numbers.")%string;
            field := Some "AvailableSlots"%string;
            entityType := EWorker;
            entityId := WorkerID worker;
            severity := SMedium |}]
      else []) (AvailableSlots worker)) (workers data).

(** ** Rule 4: out-of-range values *)

Definition priority_finding (client : Client) : ValidationError :=
  {| id := ("priority-range-" ++ ClientID client)%string;
     type := TError;
     message := ("PriorityLevel must be between 1-5, got: "
                 ++ js_num_string (PriorityLevel client))%string;
     field := Some "PriorityLevel"%string;
     entityType := EClient;
     entityId := ClientID client;
     severity := SMedium |}.

Definition duration_finding (task : Task) : ValidationError :=
  {| id := ("duration-range-" ++ TaskID task)%string;
     type := TError;
     message := ("Duration must be at least 1, got: "
                 ++ js_num_string (Duration task))%string;
     field := Some "Duration"%string;
     entityType := ETask;
     entityId := TaskID task;
     severity := SMedium |}.

Definition validateOutOfRangeValues (data : DataSet) : list ValidationError :=
  flat_map (fun client =>
    if (PriorityLevel client <? 1) || (5 <? PriorityLevel client)
    then [priority_finding client] else []) (clients data)
  ++ flat_map (fun task =>
    if Duration task <? 1 then [duration_finding task] else []) (tasks data).

(** ** Rule 5: broken JSON *)

(** The body of the [try] block: [typeof v === 'object' && v !== null]
    selects an empty branch, and neither test can throw. [inr] would be a
    thrown exception. *)
Definition broken_json_try (v : jsval) : unit + string :=
  match v with
  | JObj _ | JArr _ => inl tt
  | _ => inl tt
  end.

Definition validateBrokenJSON (data : DataSet) : list ValidationError :=
  flat_map (fun client =>
    match broken_json_try (AttributesJSON client) with
    | inl _ => []
    | inr _ =>
        [{| id := ("broken-json-" ++ ClientID client)%string;
            type := TError;
            message := "Invalid JSON in AttributesJSON"%string;
            field := Some "AttributesJSON"%string;
            entityType := EClient;
            entityId := ClientID client;
            severity := SLow |}]
    end) (clients data).

(** ** Rule 6: unknown references *)

Definition unknown_ref_finding (client : Client) (taskID : string) : ValidationError :=
  {| id := ("unknown-task-" ++ ClientID client ++ "-" ++ taskID)%string;
     type := TError;
     message := ("Client references unknown TaskID: " ++ taskID)%string;
     field := Some "RequestedTaskIDs"%string;
     entityType := EClient;
     entityId := ClientID client;
     severity := SHigh |}.

(** [if (!taskIDs.has(taskID)) errors.push(...)] for one entry. *)
Definition unknown_ref_check (taskIDs : list string) (client : Client)
    (taskID : string) : list ValidationError :=
  if negb (str_mem taskID taskIDs) then [unknown_ref_finding client taskID] else [].

Definition validateUnknownReferences (data : DataSet) : list ValidationError :=
  let taskIDs := map TaskID (tasks data) in
  flat_map (fun client =>
    flat_map (unknown_ref_check taskIDs client) (RequestedTaskIDs client))
    (clients data).

(** ** Rule 7: overloaded workers *)

Definition validateOverloadedWorkers (data : DataSet) : list ValidationError :=
  flat_map (fun worker =>
    if Z.of_nat (length (AvailableSlots worker)) <? MaxLoadPerPhase worker then
      [{| id := ("overloaded-worker-" ++ WorkerID worker)%string;
          type := TWarning;
          message := ("Worker has " ++ js_num_string (Z.of_nat (length (AvailableSlots worker)))
                      ++ " available slots but MaxLoadPerPhase is "
                      ++ js_num_string (MaxLoadPerPhase worker))%string;
          field := Some "MaxLoadPerPhase"%string;
          entityType := EWorker;
          entityId := WorkerID worker;
          severity := SMedium |}]
    else []) (workers data).

(** ** Rule 8: phase-slot saturation *)

(** A JS [Map<number, number>] kept in insertion order: [set] overwrites an
    existing key in place and appends a new one. *)
Definition zmap := list (Z * Z).

Fixpoint zmap_get (m : zmap) (k : Z) : option Z :=
  match m with
  | [] => None
  | (k', v) :: m' => if Z.eqb k' k then Some v else zmap_get m' k
  end.

Fixpoint zmap_set (m : zmap) (k v : Z) : zmap :=
  match m with
  | [] => [(k, v)]
  | (k', v') :: m' => if Z.eqb k' k then (k', v) :: m' else (k', v') :: zmap_set m' k v
  end.

(** [m.get(k) || 0] *)
Definition get_or_zero (m : zmap) (k : Z) : Z :=
  match zmap_get m k with Some v => v | None => 0 end.

(** [xs.forEach(x => x.phases.forEach(p => m.set(p, (m.get(p) || 0) + x.amount)))] *)
Definition accumulate {A : Type} (phases : A -> list Z) (amount : A -> Z)
    (xs : list A) (m : zmap) : zmap :=
  fold_left (fun m x =>
    fold_left (fun m p => zmap_set m p (get_or_zero m p + amount x)) (phases x) m)
    xs m.

Definition phaseDemand (data : DataSet) : zmap :=
  accumulate PreferredPhases Duration (tasks data) [].

Definition phaseSupply (data : DataSet) : zmap :=
  accumulate AvailableSlots MaxLoadPerPhase (workers data) [].

Definition saturation_finding (phase demand supply : Z) : ValidationError :=
  {| id := ("phase-saturation-" ++ js_num_string phase)%string;
     type := TWarning;
     message := ("Phase " ++ js_num_string phase ++ " is oversaturated: demand "
                 ++ js_num_string demand ++ " > supply " ++ js_num_string supply)%string;
     field := None;
     entityType := ETask;
     entityId := ("Phase " ++ js_num_string phase)%string;
     severity := SHigh |}.

Definition validatePhaseSlotSaturation (data : DataSet) : list ValidationError :=
  let supplyMap := phaseSupply data in
  flat_map (fun pd =>
    let '(phase, demand) := pd in
    let supply := get_or_zero supplyMap phase in
    if supply <? demand then [saturation_finding phase demand supply] else [])
    (phaseDemand data).

(** ** Rule 9: skill coverage *)

(** A JS [Set<string>] kept in insertion order. *)
Definition set_add (s : list string) (x : string) : list string :=
  if str_mem x s then s else s ++ [x].

Definition validateSkillCoverageMatrix (data : DataSet) : list ValidationError :=
  let availableSkills :=
    fold_left (fun s worker => fold_left set_add (Skills worker) s) (workers data) [] in
  flat_map (fun task =>
    flat_map (fun skill =>
      if negb (str_mem skill availableSkills) then
        [{| id := ("missing-skill-" ++ TaskID task ++ "-" ++ skill)%string;
            type := TError;
            message := ("No worker has required skill: " ++ skill)%string;
            field := Some "RequiredSkills"%string;
            entityType := ETask;
            entityId := TaskID task;
            severity := SHigh |}]
      else []) (RequiredSkills task)) (tasks data).

(** ** Rule 10: max-concurrency feasibility *)

(** [task.RequiredSkills.every(skill => worker.Skills.includes(skill))] *)
Definition worker_qualifies (task : Task) (worker : Worker) : bool :=
  forallb (fun skill => str_mem skill (Skills worker)) (RequiredSkills task).

Definition qualifiedWorkers (data : DataSet) (task : Task) : list Worker :=
  filter (worker_qualifies task) (workers data).

Definition concurrency_finding (task : Task) (nqualified : Z) : ValidationError :=
  {| id := ("concurrency-infeasible-" ++ TaskID task)%string;
     type := TWarning;
     message := ("MaxConcurrent (" ++ js_num_string (MaxConcurrent task)
                 ++ ") exceeds qualified workers (" ++ js_num_string nqualified
                 ++ ")")%string;
     field := Some "MaxConcurrent"%string;
     entityType := ETask;
     entityId := TaskID task;
     severity := SMedium |}.

Definition concurrency_check (data : DataSet) (task : Task) : list ValidationError :=
  let n := Z.of_nat (length (qualifiedWorkers data task)) in
  if n <? MaxConcurrent task then [concurrency_finding task n] else [].

Definition validateMaxConcurrencyFeasibility (data : DataSet) : list ValidationError :=
  flat_map (concurrency_check data) (tasks data).

(** ** The report builder *)

Definition allFindings (data : DataSet) : list ValidationError :=
  validateMissingRequiredColumns data
  ++ validateDuplicateIDs data
  ++ validateMalformedLists data
  ++ validateOutOfRangeValues data
  ++ validateBrokenJSON data
  ++ validateUnknownReferences data
  ++ validateOverloadedWorkers data
  ++ validatePhaseSlotSaturation data
  ++ validateSkillCoverageMatrix data
  ++ validateMaxConcurrencyFeasibility data.

Definition validateDataSet (data : DataSet) : ValidationResult :=
  let errs := allFindings data in
  let actualErrors := filter (fun e => ErrType_eqb (type e) TError) errs in
  let warns := filter (fun e => ErrType_eqb (type e) TWarning) errs in
  {| isValid := Nat.eqb (length actualErrors) 0;
     errors := actualErrors;
     warnings := warns |}.

(** ** The report builder as a stateful computation

    [validateDataSet] holds a reference to [data] and a local array
    [errors] that every rule's output is pushed onto. The state below is
    the pair of the dataset store and that array; a rule only reads the
    store. *)

Definition VState := (DataSet * list ValidationError)%type.
Definition VM (A : Type) := VState -> A * VState.

Definition vret {A} (x : A) : VM A := fun s => (x, s).
Definition vbind {A B} (m : VM A) (k : A -> VM B) : VM B :=
  fun s => let '(x, s') := m s in k x s'.
Notation "x <- m ;; k" := (vbind m (fun x => k))
  (at level 61, m at next level, right associativity).

Definition read_data : VM DataSet := fun s => (fst s, s).
Definition read_errors : VM (list ValidationError) := fun s => (snd s, s).

(** [errors.push(...rule(data))] *)
Definition push_rule (rule : DataSet -> list ValidationError) : VM unit :=
  fun s => (tt, (fst s, snd s ++ rule (fst s))).

Definition validateDataSetM : VM ValidationResult :=
  _ <- push_rule validateMissingRequiredColumns ;;
  _ <- push_rule validateDuplicateIDs ;;
  _ <- push_rule validateMalformedLists ;;
  _ <- push_rule validateOutOfRangeValues ;;
  _ <- push_rule validateBrokenJSON ;;
  _ <- push_rule validateUnknownReferences ;;
  _ <- push_rule validateOverloadedWorkers ;;
  _ <- push_rule validatePhaseSlotSaturation ;;
  _ <- push_rule validateSkillCoverageMatrix ;;
  _ <- push_rule validateMaxConcurrencyFeasibility ;;
  errs <- read_errors ;;
  let actualErrors := filter (fun e => ErrType_eqb (type e) TError) errs in
  let warns := filter (fun e => ErrType_eqb (type e) TWarning) errs in
  vret {| isValid := Nat.eqb (length actualErrors) 0;
          errors := actualErrors;
          warnings := warns |}.

(** ** Sample data *)

Definition client0 (ident : string) (prio : Z) (req : list string) : Client :=
  {| ClientID := ident; ClientName := "Acme"; PriorityLevel := prio;
     RequestedTaskIDs := req; GroupTag := "G1"; AttributesJSON := JObj [] |}.

Definition worker0 (ident : string) (skills : list string) (slots : list Z)
    (load : Z) : Worker :=
  {| WorkerID := ident; WorkerName := "Ann"; Skills := skills;
     AvailableSlots := slots; MaxLoadPerPhase := load; WorkerGroup := "W";
     QualificationLevel := "L1" |}.

Definition task0 (ident : string) (dur : Z) (skills : list string)
    (phases : list Z) (conc : Z) : Task :=
  {| TaskID := ident; TaskName := "Job"; Category := "C"; Duration := dur;
     RequiredSkills := skills; PreferredPhases := phases; MaxConcurrent := conc |}.



(** ** Parsing

    Strings are sequences of code units below 256 (ASCII and Latin-1), so
    JavaScript's white space is tab, line feed, vertical tab, form feed,
    carriage return, space and no-break space. *)

Definition dquote : ascii := "034"%char.
Definition squote : ascii := "039"%char.

Definition is_js_space (c : ascii) : bool :=
  let n := nat_of_ascii c in
  (Nat.leb 9 n && Nat.leb n 13) || Nat.eqb n 32 || Nat.eqb n 160.

Fixpoint trim_start (s : string) : string :=
  match s with
  | EmptyString => EmptyString
  | String c r => if is_js_space c then trim_start r else s
  end.

Fixpoint trim_end (s : string) : string :=
  match s with
  | EmptyString => EmptyString
  | String c r =>
      let r' := trim_end r in
      if String.eqb r' EmptyString && is_js_space c then EmptyString else String c r'
  end.

(** [s.trim()] *)
Definition trim (s : string) : string := trim_end (trim_start s).

(** [s.split(sep)] for a one-character separator: [''.split(',')] is [['']]. *)
Fixpoint js_split (sep : ascii) (s : string) : list string :=
  match s with
  | EmptyString => [EmptyString]
  | String c r =>
      let rest := js_split sep r in
      if Ascii.eqb c sep then EmptyString :: rest
      else match rest with
           | x :: xs => String c x :: xs
           | [] => [String c EmptyString]
           end
  end.

(** [s.includes(sub)] *)
Fixpoint js_includes (sub s : string) : bool :=
  match s with
  | EmptyString => String.prefix sub s
  | String _ r => String.prefix sub s || js_includes sub r
  end.

Definition starts_with (c : ascii) (s : string) : bool :=
  match s with String c' _ => Ascii.eqb c' c | EmptyString => false end.

Fixpoint ends_with (c : ascii) (s : string) : bool :=
  match s with
  | EmptyString => false
  | String c' EmptyString => Ascii.eqb c' c
  | String _ r => ends_with c r
  end.

Fixpoint drop_last (s : string) : string :=
  match s with
  | EmptyString | String _ EmptyString => EmptyString
  | String c r => String c (drop_last r)
  end.

(** [s.slice(1, -1)] *)
Definition slice_1_m1 (s : string) : string :=
  match s with EmptyString => EmptyString | String _ r => drop_last r end.

(** [s.replace(/^c/, '')] and [s.replace(/c$/, '')] for a class of characters
    [c]; applying the first and then the second gives the global replace of
    [/^c|c$/g], since a match of one alternative never overlaps one of the
    other except on a one-character string, where both leave [''] *)
Definition strip_start (p : ascii -> bool) (s : string) : string :=
  match s with String c r => if p c then r else s | EmptyString => s end.

Fixpoint last_char (s : string) : option ascii :=
  match s with
  | EmptyString => None
  | String c EmptyString => Some c
  | String _ r => last_char r
  end.

Definition strip_end (p : ascii -> bool) (s : string) : string :=
  match last_char s with Some c => if p c then drop_last s else s | None => s end.

(** [s.replace(/[\[\]]/g, '')] *)
Fixpoint remove_brackets (s : string) : string :=
  match s with
  | EmptyString => EmptyString
  | String c r =>
      if Ascii.eqb c "["%char || Ascii.eqb c "]"%char then remove_brackets r
      else String c (remove_brackets r)
  end.

(** *** [parseInt(s)] with no radix

    Leading white space is skipped, one sign is read, a [0x] or [0X] prefix
    selects radix 16, and the longest run of digits of the radix is read;
    no digit gives [NaN], here [None]. The value is the exact integer the
    digits denote; JavaScript rounds it to a double, which is exact up to
    2^53. *)

Definition digit_value (c : ascii) : Z :=
  let n := Z.of_nat (nat_of_ascii c) in
  if (48 <=? n) && (n <=? 57) then n - 48
  else if (97 <=? n) && (n <=? 122) then n - 87
  else if (65 <=? n) && (n <=? 90) then n - 55
  else 36.

Fixpoint digit_prefix (radix : Z) (s : string) : list Z :=
  match s with
  | EmptyString => []
  | String c r =>
      let v := digit_value c in
      if v <? radix then v :: digit_prefix radix r else []
  end.

Definition digits_value (radix : Z) (ds : list Z) : Z :=
  fold_left (fun acc d => acc * radix + d) ds 0.

(** Reading the sign: a [-] makes it negative, a [-] or [+] is dropped. *)
Definition int_sign (s : string) : Z * string :=
  match s with
  | String c r =>
      if Ascii.eqb c "-"%char then (-1, r)
      else if Ascii.eqb c "+"%char then (1, r) else (1, s)
  | EmptyString => (1, s)
  end.

(** Choosing the radix: a [0x] or [0X] prefix is dropped and selects 16. *)
Definition int_radix (s : string) : Z * string :=
  match s with
  | String c (String x r) =>
      if Ascii.eqb c "0"%char && (Ascii.eqb x "x"%char || Ascii.eqb x "X"%char)
      then (16, r) else (10, s)
  | _ => (10, s)
  end.

Definition parseInt (s : string) : option Z :=
  let '(sign, s2) := int_sign (trim_start s) in
  let '(radix, s3) := int_radix s2 in
  match digit_prefix radix s3 with
  | [] => None
  | ds => Some (sign * digits_value radix ds)
  end.

(** *** parseTask: a PreferredPhases cell that is a string *)

(** [cleanStr.split(',').map(x => parseInt(x.trim())).filter(x => !isNaN(x))]
    after [cleanStr = str.replace(/[\[\]]/g, '')]; parseWorker reads a string
    AvailableSlots cell the same way. *)
Definition parse_int_list (str : string) : list Z :=
  flat_map (fun piece => match parseInt (trim piece) with Some n => [n] | None => [] end)
    (js_split ","%char (remove_brackets str)).

(** [for (let i = start; i <= end; i++) preferredPhases.push(i)]; a NaN
    bound makes the test false at once. *)
Definition js_range (start stop : Z) : list Z :=
  map (fun k => start + Z.of_nat k) (seq 0 (Z.to_nat (stop - start + 1))).

Definition parsePreferredPhases (raw : string) : list Z :=
  if String.eqb raw EmptyString then [] else
  let str := trim raw in
  if js_includes "-" str then
    match map (fun n => parseInt (trim n)) (js_split "-"%char str) with
    | Some start :: Some stop :: _ => js_range start stop
    | _ => []
    end
  else parse_int_list str.

(** *** fileParser.ts: parseArrayField and parseNumberArrayField *)

Definition is_quote (c : ascii) : bool := Ascii.eqb c dquote || Ascii.eqb c squote.

(** The shared cleaning of both helpers: trim, drop a pair of outer quotes
    of the same kind, drop a leading [[] and a trailing []], trim again. *)
Definition clean_array_text (value : string) : string :=
  let cleaned := trim value in
  let cleaned :=
    if (starts_with dquote cleaned && ends_with dquote cleaned)
       || (starts_with squote cleaned && ends_with squote cleaned)
    then slice_1_m1 cleaned else cleaned in
  trim (strip_end (fun c => Ascii.eqb c "]"%char)
          (strip_start (fun c => Ascii.eqb c "["%char) cleaned)).

Definition parseArrayField (value : string) : list string :=
  if String.eqb value EmptyString || String.eqb (trim value) EmptyString then [] else
  let cleaned := clean_array_text value in
  if String.eqb cleaned EmptyString then [] else
  filter (fun item => negb (String.eqb item EmptyString))
    (map (fun item => strip_end is_quote (strip_start is_quote (trim item)))
       (js_split ","%char cleaned)).

Definition parseNumberArrayField (value : string) : list Z :=
  if String.eqb value EmptyString || String.eqb (trim value) EmptyString then [] else
  let cleaned := clean_array_text value in
  if String.eqb cleaned EmptyString then [] else
  flat_map (fun o => match o with Some n => [n] | None => [] end)
    (map (fun item => parseInt (trim item)) (js_split ","%char cleaned)).

(** *** fileParser.ts: parseCSV *)

(** The quote-aware loop of [parseCSVLine] over the rest of the line. *)
Fixpoint csv_loop (s : string) (inQuotes : bool) (current : string)
    (result : list string) : list string :=
  match s with
  | EmptyString => result ++ [current]
  | String ch rest =>
      if Ascii.eqb ch dquote then
        match rest with
        | String ch2 rest2 =>
            if inQuotes && Ascii.eqb ch2 dquote
            then csv_loop rest2 inQuotes (current ++ String dquote EmptyString) result
            else csv_loop rest (negb inQuotes) current result
        | EmptyString => csv_loop rest (negb inQuotes) current result
        end
      else if Ascii.eqb ch ","%char && negb inQuotes
      then csv_loop rest inQuotes EmptyString (result ++ [current])
      else csv_loop rest inQuotes (current ++ String ch EmptyString) result
  end.

Definition parseCSVLine (line : string) : list string := csv_loop line false EmptyString [].

(** A row object: string keys in insertion order. Assigning a string to
    [__proto__] goes to the prototype setter, which ignores it. *)
Definition row_obj := list (string * string).

Definition obj_set (o : row_obj) (k v : string) : row_obj :=
  if String.eqb k "__proto__" then o
  else if existsb (fun kv => String.eqb (fst kv) k) o
  then map (fun kv => if String.eqb (fst kv) k then (k, v) else kv) o
  else o ++ [(k, v)].

Fixpoint obj_get (o : row_obj) (k : string) : option string :=
  match o with
  | [] => None
  | (k', v) :: o' => if String.eqb k' k then Some v else obj_get o' k
  end.

(** [headers.forEach((header, index) =>
       row[header.trim()] = values[index] ? values[index].trim() : '')] *)
Fixpoint csv_row_from (values : list string) (index : nat) (headers : list string)
    (row : row_obj) : row_obj :=
  match headers with
  | [] => row
  | header :: hs =>
      let v := match nth_error values index with
               | Some s => if String.eqb s EmptyString then EmptyString else trim s
               | None => EmptyString
               end in
      csv_row_from values (S index) hs (obj_set row (trim header) v)
  end.

Definition csv_row (headers values : list string) : row_obj :=
  csv_row_from values 0 headers [].

Definition parseCSV (text : string) : list row_obj :=
  let lines := filter (fun line => negb (String.eqb (trim line) EmptyString))
                 (js_split "010"%char text) in
  if Nat.ltb (length lines) 2 then [] else
  let headers := parseCSVLine (nth 0 lines EmptyString) in
  map (fun line => csv_row headers (parseCSVLine line)) (tl lines).

(** *** Entity type of an uploaded file, from its lower-cased name *)

(** validator.ts: [detectEntityType] *)
Definition detectEntityType (fileName : string) : string :=
  if js_includes "client" fileName then "clients"
  else if js_includes "worker" fileName || js_includes "employee" fileName then "workers"
  else if js_includes "task" fileName then "tasks"
  else "clients".

(** fileParser.ts, [parseFile]: [fileName.includes('client') ? 'clients' :
    fileName.includes('worker') ? 'workers' : 'tasks'] *)
Definition fileParser_entityType (fileName : string) : string :=
  if js_includes "client" fileName then "clients"
  else if js_includes "worker" fileName then "workers" else "tasks".

(** [raw.Skills.split(',').map(skill => skill.trim()).filter(skill => skill)]
    under [if (raw.Skills)]; parseClient reads RequestedTaskIDs and parseTask
    RequiredSkills the same way. *)
Definition parse_list_cell (raw : string) : list string :=
  if String.eqb raw EmptyString then [] else
  filter (fun item => negb (String.eqb item EmptyString)) (map trim (js_split ","%char raw)).

(** [toLowerCase] on a Latin-1 code unit: A..Z and the Latin-1 capitals
    (192..222 except the multiplication sign 215) move up by 32. *)
Definition js_lower_char (c : ascii) : ascii :=
  let n := nat_of_ascii c in
  if (Nat.leb 65 n && Nat.leb n 90) || (Nat.leb 192 n && Nat.leb n 222 && negb (Nat.eqb n 215))
  then ascii_of_nat (n + 32) else c.

Fixpoint js_to_lower (s : string) : string :=
  match s with
  | EmptyString => EmptyString
  | String c r => String (js_lower_char c) (js_to_lower r)
  end.

(** [s.replace(/[^a-z0-9]/g, '')] *)
Fixpoint keep_lower_alnum (s : string) : string :=
  match s with
  | EmptyString => EmptyString
  | String c r =>
      let n := nat_of_ascii c in
      if (Nat.leb 97 n && Nat.leb n 122) || (Nat.leb 48 n && Nat.leb n 57)
      then String c (keep_lower_alnum r) else keep_lower_alnum r
  end.

(** [header.toLowerCase().replace(/[^a-z0-9]/g, '')] *)
Definition column_key (header : string) : string := keep_lower_alnum (js_to_lower header).

(** [variations.some(variation => key(header) === variation.replace(/[^a-z0-9]/g, ''))] *)
Definition header_matches (variations : list string) (header : string) : bool :=
  existsb (fun variation => String.eqb (column_key header) (keep_lower_alnum variation)) variations.

Definition clients_columns : list (string * list string) :=
  [("ClientID", ["client_id"; "clientid"; "id"; "client"]);
   ("ClientName", ["client_name"; "clientname"; "name"; "company"]);
   ("PriorityLevel", ["priority_level"; "prioritylevel"; "priority"; "level"]);
   ("RequestedTaskIDs", ["requested_task_ids"; "requestedtaskids"; "tasks"; "task_ids"]);
   ("GroupTag", ["group_tag"; "grouptag"; "group"; "tag"]);
   ("AttributesJSON", ["attributes_json"; "attributesjson"; "attributes"; "metadata"])]%string.

Definition workers_columns : list (string * list string) :=
  [("WorkerID", ["worker_id"; "workerid"; "id"; "worker"]);
   ("WorkerName", ["worker_name"; "workername"; "name"; "employee"]);
   ("Skills", ["skills"; "skill"; "capabilities"; "expertise"]);
   ("AvailableSlots", ["available_slots"; "availableslots"; "slots"; "availability"]);
   ("MaxLoadPerPhase", ["max_load_per_phase"; "maxloadperphase"; "max_load"; "capacity"]);
   ("WorkerGroup", ["worker_group"; "workergroup"; "group"; "team"]);
   ("QualificationLevel", ["qualification_level"; "qualificationlevel"; "qualification"; "level"])]%string.

Definition tasks_columns : list (string * list string) :=
  [("TaskID", ["task_id"; "taskid"; "id"; "task"]);
   ("TaskName", ["task_name"; "taskname"; "name"; "title"]);
   ("Category", ["category"; "type"; "classification"]);
   ("Duration", ["duration"; "time"; "phases"]);
   ("RequiredSkills", ["required_skills"; "requiredskills"; "skills"; "requirements"]);
   ("PreferredPhases", ["preferred_phases"; "preferredphases"; "phases"; "timeline"]);
   ("MaxConcurrent", ["max_concurrent"; "maxconcurrent"; "concurrent"; "parallel"])]%string.

(** [COLUMN_MAPPINGS[entityType]], keys in insertion order; the parameter's
    type admits only the three names. *)
Definition COLUMN_MAPPINGS (entityType : string) : list (string * list string) :=
  if String.eqb entityType "clients" then clients_columns
  else if String.eqb entityType "workers" then workers_columns
  else if String.eqb entityType "tasks" then tasks_columns
  else [].

(** The body of [Object.keys(columnMaps).forEach(standardName => ...)]. *)
Definition mapColumns_step (headers : list string) (mapping : row_obj)
    (entry : string * list string) : row_obj :=
  let '(standardName, variations) := entry in
  match find (header_matches variations) headers with
  | Some foundHeader =>
      if String.eqb foundHeader EmptyString then mapping
      else obj_set mapping foundHeader standardName
  | None => mapping
  end.

Definition mapColumns (headers : list string) (entityType : string) : row_obj :=
  fold_left (mapColumns_step headers) (COLUMN_MAPPINGS entityType) [].

(** ** Specification-side definitions *)

Local Open Scope string_scope.
Local Open Scope list_scope.

(** Position [i] of an ID column holds a second-or-later occurrence: the
    ID there is non-empty (an empty ID is a missing one) and occurs at an
    earlier position. *)
Definition later_occurrence (ids : list string) (i : nat) : bool :=
  negb (String.eqb (nth i ids "") "") && str_mem (nth i ids "") (firstn i ids).

Definition dup_positions (ids : list string) : list nat :=
  filter (later_occurrence ids) (seq 0 (length ids)).

(** [p] weighted by its number of occurrences in each element's list. *)
Definition weighted_sum {A : Type} (phases : A -> list Z) (amount : A -> Z)
    (xs : list A) (p : Z) : Z :=
  fold_right (fun x acc => amount x * Z.of_nat (count_occ Z.eq_dec (phases x) p) + acc)
    0 xs.

Definition phase_demand_total (d : DataSet) (p : Z) : Z :=
  weighted_sum PreferredPhases Duration (tasks d) p.

Definition phase_supply_total (d : DataSet) (p : Z) : Z :=
  weighted_sum AvailableSlots MaxLoadPerPhase (workers d) p.

Definition some_task_prefers (d : DataSet) (p : Z) : bool :=
  existsb (fun t => existsb (Z.eqb p) (PreferredPhases t)) (tasks d).

(** A finding about phase [p]: its entityId is ["Phase " ++ p]. *)
Definition is_phase_finding (p : Z) (f : ValidationError) : bool :=
  String.eqb (entityId f) ("Phase " ++ js_num_string p)%string.

Definition saturation_step (supplyMap : zmap) (pd : Z * Z) : list ValidationError :=
  let '(phase, demand) := pd in
  let supply := get_or_zero supplyMap phase in
  if Z.ltb supply demand then [saturation_finding phase demand supply] else [].

(** The saturation example of the specification: two tasks of Duration 5
    preferring phase 2 against one worker of MaxLoadPerPhase [load]
    available in phase 2. *)
Definition saturation_sample (load : Z) : DataSet :=
  mkDataSet [] [worker0 "W1" ["a"] [2] load]
    [task0 "T1" 5 ["a"] [2] 1; task0 "T2" 5 ["a"] [2] 1].

(** The claim's reading of rule 8: a task counts its Duration once when its
    PreferredPhases contains [p], a worker its MaxLoadPerPhase once when
    its AvailableSlots contains [p]. *)
Definition listed_demand (d : DataSet) (p : Z) : Z :=
  fold_right Z.add 0
    (map Duration (filter (fun t => existsb (Z.eqb p) (PreferredPhases t)) (tasks d))).

Definition listed_supply (d : DataSet) (p : Z) : Z :=
  fold_right Z.add 0
    (map MaxLoadPerPhase (filter (fun w => existsb (Z.eqb p) (AvailableSlots w)) (workers d))).

(** The fields the validation rules read; GroupTag, AttributesJSON,
    WorkerGroup, QualificationLevel and Category are read by none of them.
    [blank_*] rebuilds an entity from the read fields alone. *)
Definition client_core (c : Client) :=
  (ClientID c, ClientName c, PriorityLevel c, RequestedTaskIDs c).
Definition worker_core (w : Worker) :=
  (WorkerID w, WorkerName w, Skills w, AvailableSlots w, MaxLoadPerPhase w).
Definition task_core (t : Task) :=
  (TaskID t, TaskName t, Duration t, RequiredSkills t, PreferredPhases t, MaxConcurrent t).

Definition blank_client (c : Client) : Client :=
  {| ClientID := ClientID c; ClientName := ClientName c; PriorityLevel := PriorityLevel c;
     RequestedTaskIDs := RequestedTaskIDs c; GroupTag := ""; AttributesJSON := JNull |}.
Definition blank_worker (w : Worker) : Worker :=
  {| WorkerID := WorkerID w; WorkerName := WorkerName w; Skills := Skills w;
     AvailableSlots := AvailableSlots w; MaxLoadPerPhase := MaxLoadPerPhase w;
     WorkerGroup := ""; QualificationLevel := "" |}.
Definition blank_task (t : Task) : Task :=
  {| TaskID := TaskID t; TaskName := TaskName t; Category := ""; Duration := Duration t;
     RequiredSkills := RequiredSkills t; PreferredPhases := PreferredPhases t;
     MaxConcurrent := MaxConcurrent t |}.

Definition blank_dataset (d : DataSet) : DataSet :=
  mkDataSet (map blank_client (clients d)) (map blank_worker (workers d))
            (map blank_task (tasks d)).

Definition is_error (e : ValidationError) : bool := ErrType_eqb (type e) TError.
Definition is_warning (e : ValidationError) : bool := ErrType_eqb (type e) TWarning.

Fixpoint uint_digits (u : Decimal.uint) : list Z :=
  match u with
  | Decimal.Nil => []
  | Decimal.D0 u => 0 :: uint_digits u
  | Decimal.D1 u => 1 :: uint_digits u
  | Decimal.D2 u => 2 :: uint_digits u
  | Decimal.D3 u => 3 :: uint_digits u
  | Decimal.D4 u => 4 :: uint_digits u
  | Decimal.D5 u => 5 :: uint_digits u
  | Decimal.D6 u => 6 :: uint_digits u
  | Decimal.D7 u => 7 :: uint_digits u
  | Decimal.D8 u => 8 :: uint_digits u
  | Decimal.D9 u => 9 :: uint_digits u
  end.

Definition number_boundary (rest : string) : bool :=
  match rest with
  | EmptyString => true
  | String c _ => Z.leb 10 (digit_value c) && negb (Ascii.eqb c "x"%char || Ascii.eqb c "X"%char)
  end.

Fixpoint str_forallb (p : ascii -> bool) (s : string) : bool :=
  match s with
  | EmptyString => true
  | String c r => p c && str_forallb p r
  end.

Definition no_char (c : ascii) (s : string) : bool :=
  str_forallb (fun x => negb (Ascii.eqb x c)) s.

Definition is_dec_digit (c : ascii) : bool :=
  Nat.leb 48 (nat_of_ascii c) && Nat.leb (nat_of_ascii c) 57.

Definition plain_char (c : ascii) : bool :=
  negb (is_quote c || Ascii.eqb c "," || Ascii.eqb c "[" || Ascii.eqb c "]").

Definition plain_item (s : string) : bool :=
  str_forallb plain_char s &&
  match s with String c _ => negb (is_js_space c) | EmptyString => false end &&
  match last_char s with Some d => negb (is_js_space d) | None => false end.


Fixpoint csv_escape (s : string) : string :=
  match s with
  | EmptyString => EmptyString
  | String c r =>
      if Ascii.eqb c dquote then String dquote (String dquote (csv_escape r))
      else String c (csv_escape r)
  end.

Definition csv_quote (f : string) : string := String dquote (csv_escape f ++ String dquote "")%string.

Fixpoint last_match (k : string) (headers : list string) (i : nat) : option nat :=
  match headers with
  | [] => None
  | h :: hs =>
      match last_match k hs (S i) with
      | Some j => Some j
      | None => if String.eqb (trim h) k then Some i else None
      end
  end.

Definition newline : ascii := "010"%char.

Definition csv_line (fs : list string) : string := String.concat "," (map csv_quote fs).

(** Among the standard names of an entity type, a name matches only its own
    variations. *)
Definition own_variations_only (cols : list (string * list string)) : bool :=
  forallb (fun entry =>
    forallb (fun std => Bool.eqb (header_matches (snd entry) std) (String.eqb std (fst entry)))
      (map fst cols)) cols.

(** ** General facts *)

Example js_num_string_ex : js_num_string (-17) = "-17"%string /\ js_num_string 0 = "0"%string.
Proof. split; reflexivity. Qed.

Lemma js_num_string_inj : forall a b, js_num_string a = js_num_string b -> a = b.
Proof.
  intros a b H. unfold js_num_string in H.
  assert (Hi : Z.to_int a = Z.to_int b).
  { pose proof (NilEmpty.isi (Z.to_int a)) as Ha.
    pose proof (NilEmpty.isi (Z.to_int b)) as Hb.
    rewrite H in Ha. congruence. }
  rewrite <- (DecimalZ.of_to a), <- (DecimalZ.of_to b), Hi. reflexivity.
Qed.

Lemma str_mem_In : forall x l, str_mem x l = true <-> In x l.
Proof.
  intros x l. unfold str_mem. rewrite existsb_exists. split.
  - intros (y & Hy & E). apply String.eqb_eq in E. subst. exact Hy.
  - intros H. exists x. split; [exact H | apply String.eqb_refl].
Qed.

Lemma In_flat_mapi_from : forall {A B} (f : nat -> A -> list B) l k i x y,
  nth_error l i = Some x -> In y (f (k + i)%nat x) -> In y (flat_mapi_from k f l).
Proof.
  intros A B f l. induction l as [|a l IH]; intros k i x y Hn Hy.
  - destruct i; discriminate.
  - simpl. apply in_or_app. destruct i as [|i].
    + left. simpl in Hn. injection Hn as ->. rewrite Nat.add_0_r in Hy. exact Hy.
    + right. apply (IH (S k) i x); [exact Hn|]. rewrite Nat.add_succ_r in Hy. exact Hy.
Qed.

Lemma filter_app_type : forall (p : ValidationError -> bool) l1 l2,
  filter p (l1 ++ l2) = filter p l1 ++ filter p l2.
Proof. intros. apply filter_app. Qed.

(** Every finding of the report comes from one of the rules, with its kind. *)
Lemma errors_spec : forall d,
  errors (validateDataSet d) = filter (fun e => ErrType_eqb (type e) TError) (allFindings d).
Proof. reflexivity. Qed.

Lemma warnings_spec : forall d,
  warnings (validateDataSet d) = filter (fun e => ErrType_eqb (type e) TWarning) (allFindings d).
Proof. reflexivity. Qed.

Lemma In_errors : forall d f,
  In f (allFindings d) -> type f = TError -> In f (errors (validateDataSet d)).
Proof.
  intros d f Hin Ht. rewrite errors_spec. apply filter_In. split; [exact Hin|].
  rewrite Ht. reflexivity.
Qed.

(** ** C1: broken JSON *)

(** C1 (code_bug). The broken-JSON rule never reports anything: the body of
    its [try] block cannot throw, so its [catch] branch, the only place a
    finding is pushed, is dead, and a client whose AttributesJSON is not a
    mapping gets no AttributesJSON finding. *)
Theorem validateBrokenJSON_never_reports : forall d, validateBrokenJSON d = [].
Proof.
  intros [cs ws ts]. unfold validateBrokenJSON; simpl.
  induction cs as [|c cs IH]; [reflexivity|].
  simpl. destruct (AttributesJSON c); simpl; exact IH.
Qed.

(** A client whose AttributesJSON is [null] (what the grid editor stores
    after [JSON.parse("null")]) gets no AttributesJSON finding. *)
Example broken_json_null_sample :
  let d := mkDataSet [{| ClientID := "C1"; ClientName := "Acme"; PriorityLevel := 1;
                         RequestedTaskIDs := []; GroupTag := "G1";
                         AttributesJSON := JNull |}] [] [] in
  filter (fun f => match field f with
                   | Some fl => String.eqb fl "AttributesJSON"
                   | None => false end)
         (errors (validateDataSet d) ++ warnings (validateDataSet d)) = [].
Proof. reflexivity. Qed.

(** ** C2: the verdict *)

(** C2. [isValid] is [true] exactly when the [errors] sequence is empty,
    whatever the warnings are. *)
Theorem isValid_iff_no_errors : forall d,
  isValid (validateDataSet d) = true <-> errors (validateDataSet d) = [].
Proof.
  intros d. unfold validateDataSet; simpl.
  destruct (filter _ _) as [|e l]; simpl; split; intro H; try reflexivity; discriminate.
Qed.

(** ** C3: determinism *)

(** C3. [validateDataSet] is a function of the dataset alone: two runs on
    equal datasets give the same result, finding for finding (ids, messages
    and order included); no identifier draws on randomness or time. *)
Theorem validateDataSet_deterministic : forall d1 d2,
  d1 = d2 -> validateDataSet d1 = validateDataSet d2.
Proof. intros d1 d2 ->. reflexivity. Qed.

Lemma validateDataSet_deterministic_witness :
  let d := mkDataSet [client0 "C1" 7 ["T9"]] [worker0 "W1" ["a"] [0] 2] [] in
  d = d /\ validateDataSet d = validateDataSet d.
Proof.
  intro d. split; [reflexivity|]. apply (validateDataSet_deterministic d d). reflexivity.
Defined.

(** ** C9: validation is a read-only pass *)

(** C9. Running the report builder from the dataset store [d] and an empty
    error array returns [validateDataSet d] and leaves the store equal to
    [d]: no rule writes to the dataset. *)
Theorem validateDataSet_read_only : forall d,
  fst (validateDataSetM (d, [])) = validateDataSet d /\
  fst (snd (validateDataSetM (d, []))) = d.
Proof.
  intros d. split; [|reflexivity].
  unfold validateDataSetM, validateDataSet, allFindings, vbind, push_rule,
    read_errors, vret; simpl. rewrite !app_assoc. reflexivity.
Qed.

(** ** C10: a zero priority or duration is reported twice *)

(** C10. A client whose PriorityLevel is 0 gets both a missing-field error
    (0 is falsy) and an out-of-range error, two distinct findings; the same
    holds for a task whose Duration is 0. *)
Theorem zero_value_two_errors :
  (forall d i c, nth_error (clients d) i = Some c -> PriorityLevel c = 0 ->
     In (missing_finding "client" EClient (ClientID c) i "PriorityLevel")
        (errors (validateDataSet d)) /\
     In (priority_finding c) (errors (validateDataSet d)) /\
     missing_finding "client" EClient (ClientID c) i "PriorityLevel" <> priority_finding c) /\
  (forall d i t, nth_error (tasks d) i = Some t -> Duration t = 0 ->
     In (missing_finding "task" ETask (TaskID t) i "Duration")
        (errors (validateDataSet d)) /\
     In (duration_finding t) (errors (validateDataSet d)) /\
     missing_finding "task" ETask (TaskID t) i "Duration" <> duration_finding t).
Proof.
  split.
  - intros d i c Hn Hp. split; [|split].
    + apply In_errors; [|reflexivity]. unfold allFindings.
      apply in_or_app. left. unfold validateMissingRequiredColumns.
      apply in_or_app. left. unfold flat_mapi.
      eapply In_flat_mapi_from; [exact Hn|]. cbv beta.
      apply in_flat_map. exists "PriorityLevel". split; [simpl; auto|].
      unfold client_get; simpl. rewrite Hp. simpl. left. reflexivity.
    + apply In_errors; [|reflexivity]. unfold allFindings.
      do 3 (apply in_or_app; right). apply in_or_app; left.
      unfold validateOutOfRangeValues. apply in_or_app; left.
      apply in_flat_map. exists c. split; [eapply nth_error_In; exact Hn|].
      rewrite Hp. simpl. left. reflexivity.
    + intro H. apply (f_equal severity) in H. discriminate.
  - intros d i t Hn Hp. split; [|split].
    + apply In_errors; [|reflexivity]. unfold allFindings.
      apply in_or_app. left. unfold validateMissingRequiredColumns.
      do 2 (apply in_or_app; right). unfold flat_mapi.
      eapply In_flat_mapi_from; [exact Hn|]. cbv beta.
      apply in_flat_map. exists "Duration". split; [simpl; auto|].
      unfold task_get; simpl. rewrite Hp. simpl. left. reflexivity.
    + apply In_errors; [|reflexivity]. unfold allFindings.
      do 3 (apply in_or_app; right). apply in_or_app; left.
      unfold validateOutOfRangeValues. apply in_or_app; right.
      apply in_flat_map. exists t. split; [eapply nth_error_In; exact Hn|].
      rewrite Hp. simpl. left. reflexivity.
    + intro H. apply (f_equal severity) in H. discriminate.
Qed.

Lemma zero_value_two_errors_witness :
  let c := client0 "C1" 0 [] in
  let t := task0 "T1" 0 ["a"] [1] 1 in
  let d := mkDataSet [c] [worker0 "W1" ["a"] [1] 1] [t] in
  (nth_error (clients d) 0%nat = Some c /\ PriorityLevel c = 0 /\
   In (missing_finding "client" EClient (ClientID c) 0%nat "PriorityLevel")
      (errors (validateDataSet d))) /\
  (nth_error (tasks d) 0%nat = Some t /\ Duration t = 0 /\
   In (duration_finding t) (errors (validateDataSet d))).
Proof.
  intros c t d. split.
  - split; [reflexivity|]. split; [reflexivity|].
    apply (proj1 zero_value_two_errors d 0%nat c); reflexivity.
  - split; [reflexivity|]. split; [reflexivity|].
    apply (proj2 zero_value_two_errors d 0%nat t); reflexivity.
Defined.

(** ** C8: identifiers within one report *)

(** C8 (code_bug). Two findings of one report can share an identifier: a
    worker with two invalid slots gets two malformed-slots findings whose
    ids are both built from the WorkerID alone. *)
Theorem report_ids_not_distinct :
  let d := mkDataSet [] [worker0 "W1" ["a"] [0; -1] 1] [] in
  map id (errors (validateDataSet d)) = ["malformed-slots-W1"; "malformed-slots-W1"] /\
  warnings (validateDataSet d) = [] /\
  ~ NoDup (map id (errors (validateDataSet d) ++ warnings (validateDataSet d))).
Proof.
  intro d. split; [reflexivity|]. split; [reflexivity|].
  vm_compute. intro H. inversion H as [|x l Hnot Hnd]. apply Hnot. left. reflexivity.
Qed.

(** ** C4: duplicate IDs *)

Lemma idmap_has_app : forall m k n x,
  idmap_has (m ++ [(k, n)]) x = idmap_has m x || String.eqb k x.
Proof.
  intros. unfold idmap_has. rewrite existsb_app. simpl. rewrite orb_false_r. reflexivity.
Qed.

Lemma str_mem_app1 : forall x pre k,
  str_mem x (pre ++ [k]) = str_mem x pre || String.eqb x k.
Proof.
  intros. unfold str_mem. rewrite existsb_app. simpl. rewrite orb_false_r. reflexivity.
Qed.

Lemma nth_app_len : forall (pre l : list string) k,
  nth (length pre) (pre ++ k :: l) "" = k.
Proof. intros. rewrite app_nth2 by lia. rewrite Nat.sub_diag. reflexivity. Qed.

Lemma firstn_app_len : forall (pre l : list string),
  firstn (length pre) (pre ++ l) = pre.
Proof. intros. rewrite firstn_app, Nat.sub_diag, firstn_all. simpl. apply app_nil_r. Qed.

Section DupScan.
Context {A : Type} (getId : A -> string) (mk : string -> ValidationError).

Lemma dup_scan_spec : forall l pre ids,
  (forall x, x <> "" -> idmap_has ids x = str_mem x pre) ->
  dup_scan getId mk ids (length pre) l =
  map (fun i => mk (nth i (pre ++ map getId l) ""))
      (filter (later_occurrence (pre ++ map getId l)) (seq (length pre) (length l))).
Proof.
  induction l as [|e l IH]; intros pre ids Hids; [reflexivity|].
  simpl dup_scan. simpl map. simpl length. simpl seq.
  set (k := getId e).
  assert (Hhead : later_occurrence (pre ++ k :: map getId l) (length pre)
                  = negb (String.eqb k "") && str_mem k pre).
  { unfold later_occurrence. rewrite nth_app_len, firstn_app_len. reflexivity. }
  assert (Hl : pre ++ k :: map getId l = (pre ++ [k]) ++ map getId l)
    by (rewrite <- app_assoc; reflexivity).
  assert (Hlen : S (length pre) = length (pre ++ [k]))
    by (rewrite length_app; simpl; lia).
  simpl filter. rewrite Hhead.
  destruct (String.eqb k "") eqn:Ek; simpl.
  - rewrite Hlen, IH, <- Hl; [reflexivity|].
    intros x Hx. rewrite str_mem_app1, Hids by exact Hx.
    apply String.eqb_eq in Ek. rewrite Ek.
    destruct (String.eqb_spec x ""); [contradiction|]. rewrite orb_false_r; reflexivity.
  - assert (Hk : k <> "") by (apply String.eqb_neq; exact Ek).
    rewrite (Hids k Hk).
    destruct (str_mem k pre) eqn:Em; simpl.
    + rewrite nth_app_len. f_equal.
      rewrite Hlen, IH, <- Hl; [reflexivity|].
      intros x Hx. rewrite str_mem_app1, Hids by exact Hx.
      destruct (String.eqb_spec x k) as [->|]; [rewrite Em; reflexivity|].
      rewrite orb_false_r; reflexivity.
    + rewrite Hlen, IH, <- Hl; [reflexivity|].
      intros x Hx. rewrite idmap_has_app, str_mem_app1, Hids by exact Hx.
      f_equal. apply String.eqb_sym.
Qed.

Lemma dup_scan_positions : forall l,
  dup_scan getId mk [] 0 l =
  map (fun i => mk (nth i (map getId l) "")) (dup_positions (map getId l)).
Proof.
  intros l. unfold dup_positions. rewrite length_map.
  apply (dup_scan_spec l [] []). intros x _. reflexivity.
Qed.
End DupScan.

(** C4. In each of the three collections, duplicate-ID detection reports
    exactly one finding, a high-severity error, for each second-or-later
    occurrence of an ID (positions listed by [dup_positions], in order) and
    none for a first occurrence or for a missing (empty) ID; two clients
    sharing ClientID "C1" yield exactly one duplicate-ID error, for the
    second position. *)
Theorem duplicate_ids_reported : forall d,
  validateDuplicateIDs d =
    map (fun i => dup_finding "client" "ClientID" EClient (nth i (map ClientID (clients d)) ""))
        (dup_positions (map ClientID (clients d)))
    ++ map (fun i => dup_finding "worker" "WorkerID" EWorker (nth i (map WorkerID (workers d)) ""))
        (dup_positions (map WorkerID (workers d)))
    ++ map (fun i => dup_finding "task" "TaskID" ETask (nth i (map TaskID (tasks d)) ""))
        (dup_positions (map TaskID (tasks d))) /\
  (forall kind fieldName et ident,
     type (dup_finding kind fieldName et ident) = TError /\
     severity (dup_finding kind fieldName et ident) = SHigh) /\
  (let d2 := mkDataSet [client0 "C1" 1 []; client0 "C1" 2 []] [] [] in
   dup_positions (map ClientID (clients d2)) = [1%nat] /\
   validateDuplicateIDs d2 = [dup_finding "client" "ClientID" EClient "C1"]).
Proof.
  intros d. split; [|split].
  - unfold validateDuplicateIDs. rewrite !dup_scan_positions. reflexivity.
  - intros. split; reflexivity.
  - split; reflexivity.
Qed.

(** ** C7: unknown references *)

Lemma task_id_known : forall d t,
  str_mem t (map TaskID (tasks d)) = true <->
  exists task, In task (tasks d) /\ TaskID task = t.
Proof.
  intros d t. rewrite str_mem_In, in_map_iff. split.
  - intros (x & Hx & Hin). exists x. split; assumption.
  - intros (x & Hin & Hx). exists x. split; assumption.
Qed.

(** C7. The unknown-reference rule handles every entry [t] of every
    client's RequestedTaskIDs on its own: it emits exactly one finding for
    the entry, a high-severity error for (client, t), when no task has
    TaskID [t], and none when such a task exists. *)
Theorem unknown_reference_per_entry : forall d,
  validateUnknownReferences d =
    flat_map (fun c => flat_map (unknown_ref_check (map TaskID (tasks d)) c)
                                (RequestedTaskIDs c)) (clients d) /\
  forall c t,
    ((exists task, In task (tasks d) /\ TaskID task = t) ->
       unknown_ref_check (map TaskID (tasks d)) c t = []) /\
    (~ (exists task, In task (tasks d) /\ TaskID task = t) ->
       exists f, unknown_ref_check (map TaskID (tasks d)) c t = [f] /\
         type f = TError /\ severity f = SHigh /\
         entityType f = EClient /\ entityId f = ClientID c /\
         field f = Some "RequestedTaskIDs" /\
         message f = ("Client references unknown TaskID: " ++ t)%string).
Proof.
  intros d. split; [reflexivity|]. intros c t. split.
  - intros Hex. unfold unknown_ref_check.
    apply task_id_known in Hex. rewrite Hex. reflexivity.
  - intros Hnex. unfold unknown_ref_check.
    destruct (str_mem t (map TaskID (tasks d))) eqn:Hm.
    + exfalso. apply Hnex, task_id_known, Hm.
    + simpl. eexists. split; [reflexivity|].
      repeat split; reflexivity.
Qed.

Example unknown_reference_ex :
  validateUnknownReferences (mkDataSet [client0 "C1" 1 ["T99"]] [] [task0 "T1" 1 [] [] 1])
    = [unknown_ref_finding (client0 "C1" 1 ["T99"]) "T99"] /\
  validateUnknownReferences (mkDataSet [client0 "C1" 1 ["T99"]] [] [task0 "T99" 1 [] [] 1])
    = [].
Proof. split; reflexivity. Qed.

(** ** C6: concurrency feasibility *)

Lemma worker_qualifies_incl : forall t w,
  worker_qualifies t w = true <-> incl (RequiredSkills t) (Skills w).
Proof.
  intros t w. unfold worker_qualifies. rewrite forallb_forall. split.
  - intros H s Hs. apply str_mem_In, H, Hs.
  - intros H s Hs. apply str_mem_In, H, Hs.
Qed.

(** C6. For every task the concurrency rule emits exactly one finding, a
    medium-severity warning, when MaxConcurrent exceeds the number of
    workers whose Skills include every RequiredSkills entry, and none
    otherwise; the message cites MaxConcurrent and that worker count. *)
Theorem concurrency_warning_per_task : forall d,
  validateMaxConcurrencyFeasibility d = flat_map (concurrency_check d) (tasks d) /\
  forall t,
    (forall w, worker_qualifies t w = true <-> incl (RequiredSkills t) (Skills w)) /\
    let n := Z.of_nat (length (filter (worker_qualifies t) (workers d))) in
    length (concurrency_check d t) = (if Z.ltb n (MaxConcurrent t) then 1%nat else 0%nat) /\
    (forall f, In f (concurrency_check d t) ->
       type f = TWarning /\ severity f = SMedium /\ entityId f = TaskID t /\
       message f = ("MaxConcurrent (" ++ js_num_string (MaxConcurrent t)
                   ++ ") exceeds qualified workers (" ++ js_num_string n ++ ")")%string).
Proof.
  intros d. split; [reflexivity|]. intros t.
  split; [apply worker_qualifies_incl|]. cbv zeta.
  unfold concurrency_check, qualifiedWorkers. cbv zeta.
  destruct (Z.ltb (Z.of_nat (length (filter (worker_qualifies t) (workers d)))) (MaxConcurrent t));
    split; try reflexivity.
  - intros f [<-|[]]. repeat split; reflexivity.
  - intros f [].
Qed.

Example concurrency_ex :
  let t := task0 "T1" 1 ["weld"] [1] 3 in
  let d := mkDataSet [] [worker0 "W1" ["weld"] [1] 1; worker0 "W2" ["weld"; "cut"] [1] 1;
                         worker0 "W3" ["cut"] [1] 1] [t] in
  map message (validateMaxConcurrencyFeasibility d)
    = ["MaxConcurrent (3) exceeds qualified workers (2)"].
Proof. reflexivity. Qed.

(** ** C5: phase-slot saturation *)

Lemma zmap_get_set : forall m k v q,
  zmap_get (zmap_set m k v) q = if Z.eqb k q then Some v else zmap_get m q.
Proof.
  induction m as [|[k' v'] m IH]; intros k v q; simpl.
  - destruct (Z.eqb k q); reflexivity.
  - destruct (Z.eqb_spec k' k) as [->|Hne]; simpl.
    + destruct (Z.eqb k q); reflexivity.
    + rewrite IH. destruct (Z.eqb_spec k' q) as [->|]; destruct (Z.eqb_spec k q); congruence.
Qed.

Lemma get_or_zero_set : forall m k v q,
  get_or_zero (zmap_set m k v) q = if Z.eqb k q then v else get_or_zero m q.
Proof.
  intros. unfold get_or_zero. rewrite zmap_get_set. destruct (Z.eqb k q); reflexivity.
Qed.

Lemma In_keys_set : forall m k v q,
  In q (map fst (zmap_set m k v)) <-> k = q \/ In q (map fst m).
Proof.
  induction m as [|[k' v'] m IH]; intros k v q; simpl.
  - tauto.
  - destruct (Z.eqb_spec k' k) as [->|]; simpl; [tauto|]. rewrite IH. tauto.
Qed.

Lemma NoDup_keys_set : forall m k v,
  NoDup (map fst m) -> NoDup (map fst (zmap_set m k v)).
Proof.
  induction m as [|[k' v'] m IH]; intros k v Hnd; simpl.
  - constructor; [intros []|constructor].
  - inversion Hnd as [|x l Hnin Hnd']. subst.
    destruct (Z.eqb_spec k' k); simpl; constructor; auto.
    rewrite In_keys_set. intros [Heq|Hin]; [congruence|contradiction].
Qed.

Section Accumulate.
Context {A : Type} (phases : A -> list Z) (amount : A -> Z).

Let step (a : Z) := fun m p => zmap_set m p (get_or_zero m p + a).

Lemma inner_get : forall ps a m q,
  get_or_zero (fold_left (step a) ps m) q
  = get_or_zero m q + a * Z.of_nat (count_occ Z.eq_dec ps q).
Proof.
  induction ps as [|p ps IH]; intros a m q; simpl; [lia|].
  rewrite IH. unfold step. rewrite get_or_zero_set.
  destruct (Z.eq_dec p q) as [->|Hne].
  - rewrite Z.eqb_refl. lia.
  - apply Z.eqb_neq in Hne. rewrite Hne. reflexivity.
Qed.

Lemma inner_none : forall ps a m q,
  zmap_get (fold_left (step a) ps m) q = None <-> zmap_get m q = None /\ ~ In q ps.
Proof.
  induction ps as [|p ps IH]; intros a m q; simpl; [tauto|].
  rewrite IH. unfold step. rewrite zmap_get_set.
  destruct (Z.eqb_spec p q).
  - subst. split; [intros [H _]; discriminate H|].
    intros [_ H]. exfalso. apply H. left. reflexivity.
  - split.
    + intros [H1 H2]. split; [exact H1|]. intros [E|E]; contradiction.
    + intros [H1 H2]. split; [exact H1|]. intro E. apply H2. right. exact E.
Qed.

Lemma inner_nodup : forall ps a m,
  NoDup (map fst m) -> NoDup (map fst (fold_left (step a) ps m)).
Proof.
  induction ps as [|p ps IH]; intros a m Hnd; simpl; [exact Hnd|].
  apply IH. apply NoDup_keys_set, Hnd.
Qed.

Lemma accumulate_get : forall xs m q,
  get_or_zero (accumulate phases amount xs m) q
  = get_or_zero m q + weighted_sum phases amount xs q.
Proof.
  induction xs as [|x xs IH]; intros m q; unfold accumulate in *; simpl; [lia|].
  rewrite IH. fold (step (amount x)). rewrite inner_get. lia.
Qed.

Lemma accumulate_none : forall xs m q,
  zmap_get (accumulate phases amount xs m) q = None <->
  zmap_get m q = None /\ forall x, In x xs -> ~ In q (phases x).
Proof.
  induction xs as [|x xs IH]; intros m q; unfold accumulate in *; simpl.
  - split; [intros H; split; [exact H|intros _ []]|tauto].
  - rewrite IH. fold (step (amount x)). rewrite inner_none. split.
    + intros [[H1 H2] H3]. split; [exact H1|]. intros y [<-|Hy]; auto.
    + intros [H1 H2]. repeat split; auto.
Qed.

Lemma accumulate_nodup : forall xs m,
  NoDup (map fst m) -> NoDup (map fst (accumulate phases amount xs m)).
Proof.
  induction xs as [|x xs IH]; intros m Hnd; unfold accumulate in *; simpl; [exact Hnd|].
  apply IH. fold (step (amount x)). apply inner_nodup, Hnd.
Qed.
End Accumulate.

Lemma is_phase_saturation_finding : forall p q dem sup,
  is_phase_finding p (saturation_finding q dem sup) = Z.eqb q p.
Proof.
  intros p q dem sup. unfold is_phase_finding.
  change (entityId (saturation_finding q dem sup)) with ("Phase " ++ js_num_string q)%string.
  destruct (Z.eqb_spec q p) as [->|Hne].
  - apply String.eqb_refl.
  - apply String.eqb_neq. intro H. apply Hne, js_num_string_inj.
    cbn in H. injection H as H. exact H.
Qed.

Lemma saturation_none_for : forall (p : Z) (s : zmap) m,
  ~ In p (map fst m) -> filter (is_phase_finding p) (flat_map (saturation_step s) m) = [].
Proof.
  intros p s. induction m as [|[k v] m IH]; intros Hn; simpl; [reflexivity|].
  rewrite filter_app. rewrite IH by (intro; apply Hn; right; assumption).
  destruct (Z.ltb (get_or_zero s k) v); simpl; [|reflexivity].
  rewrite is_phase_saturation_finding.
  destruct (Z.eqb_spec k p); [exfalso; apply Hn; left; assumption|reflexivity].
Qed.

Lemma saturation_count : forall (p : Z) (s : zmap) m,
  NoDup (map fst m) ->
  length (filter (is_phase_finding p) (flat_map (saturation_step s) m)) =
  match zmap_get m p with
  | Some dem => if Z.ltb (get_or_zero s p) dem then 1%nat else 0%nat
  | None => 0%nat
  end.
Proof.
  intros p s. induction m as [|[k v] m IH]; intros Hnd; simpl; [reflexivity|].
  inversion Hnd as [|x l Hnin Hnd']. subst.
  rewrite filter_app, length_app.
  destruct (Z.eqb_spec k p) as [->|Hne].
  - rewrite saturation_none_for by exact Hnin. simpl.
    destruct (Z.ltb (get_or_zero s p) v); simpl;
      [rewrite is_phase_saturation_finding, Z.eqb_refl|]; reflexivity.
  - rewrite IH by exact Hnd'.
    destruct (Z.ltb (get_or_zero s k) v); simpl; [|reflexivity].
    rewrite is_phase_saturation_finding. apply Z.eqb_neq in Hne. rewrite Hne. reflexivity.
Qed.

Lemma some_task_prefers_spec : forall d p,
  some_task_prefers d p = true <-> exists t, In t (tasks d) /\ In p (PreferredPhases t).
Proof.
  intros d p. unfold some_task_prefers. rewrite existsb_exists. split.
  - intros (t & Ht & H). apply existsb_exists in H as (q & Hq & E).
    apply Z.eqb_eq in E. subst. exists t. split; assumption.
  - intros (t & Ht & H). exists t. split; [assumption|].
    apply existsb_exists. exists p. split; [assumption|apply Z.eqb_refl].
Qed.

(** C5 (amended). For every phase [p], the saturation rule emits exactly
    one finding about [p], a high-severity warning, when some task lists
    [p] in its PreferredPhases and the tasks' demand for [p] exceeds the
    workers' supply for [p], and none otherwise. Demand counts each task's
    full Duration once per occurrence of [p] in its PreferredPhases; supply
    counts each worker's full MaxLoadPerPhase once per occurrence of [p] in
    its AvailableSlots. The specification's example holds: a worker of
    MaxLoadPerPhase 6 gives a warning for phase 2, one of 10 gives none. *)
Theorem phase_saturation_per_phase : forall d p,
  length (filter (is_phase_finding p) (validatePhaseSlotSaturation d)) =
    (if some_task_prefers d p
        && Z.ltb (phase_supply_total d p) (phase_demand_total d p) then 1 else 0)%nat /\
  (forall f, In f (validatePhaseSlotSaturation d) ->
     type f = TWarning /\ severity f = SHigh) /\
  length (filter (is_phase_finding 2) (validatePhaseSlotSaturation (saturation_sample 6))) = 1%nat /\
  length (filter (is_phase_finding 2) (validatePhaseSlotSaturation (saturation_sample 10))) = 0%nat.
Proof.
  intros d p. split; [|split; [|split; reflexivity]].
  - change (validatePhaseSlotSaturation d)
      with (flat_map (saturation_step (phaseSupply d)) (phaseDemand d)).
    rewrite saturation_count by (apply accumulate_nodup; constructor).
    assert (Hs : get_or_zero (phaseSupply d) p = phase_supply_total d p)
      by (unfold phaseSupply; rewrite accumulate_get; reflexivity).
    assert (Hd : get_or_zero (phaseDemand d) p = phase_demand_total d p)
      by (unfold phaseDemand; rewrite accumulate_get; reflexivity).
    rewrite Hs.
    destruct (zmap_get (phaseDemand d) p) as [dem|] eqn:Eg.
    + assert (Hpref : some_task_prefers d p = true).
      { apply some_task_prefers_spec.
        destruct (some_task_prefers d p) eqn:E.
        - apply some_task_prefers_spec, E.
        - exfalso.
          assert (Hn : zmap_get (phaseDemand d) p = None).
          { unfold phaseDemand. apply accumulate_none. split; [reflexivity|].
            intros t Ht Hin. assert (Hc : some_task_prefers d p = true)
              by (apply some_task_prefers_spec; exists t; split; assumption).
            congruence. }
          congruence. }
      rewrite Hpref. simpl.
      unfold get_or_zero in Hd. rewrite Eg in Hd. rewrite Hd. reflexivity.
    + unfold phaseDemand in Eg. apply accumulate_none in Eg as [_ Hno].
      destruct (some_task_prefers d p) eqn:E; [|reflexivity].
      apply some_task_prefers_spec in E as (t & Ht & Hin).
      exfalso. exact (Hno t Ht Hin).
  - intros f Hf. unfold validatePhaseSlotSaturation in Hf.
    apply in_flat_map in Hf as ([q dem] & _ & Hf).
    destruct (Z.ltb _ dem) in Hf; [destruct Hf as [<-|[]]|destruct Hf].
    split; reflexivity.
Qed.

(** C5 (counterexample). One task of Duration 5 whose PreferredPhases lists
    phase 2 twice, against one worker of MaxLoadPerPhase 6 available in
    phase 2: the code counts a demand of 10 and warns about phase 2,
    although the tasks containing phase 2 have a total Duration of 5. *)
Lemma phase_saturation_counts_repeats :
  ~ (forall d p,
       length (filter (is_phase_finding p) (validatePhaseSlotSaturation d)) = 1%nat <->
       Z.lt (listed_supply d p) (listed_demand d p)).
Proof.
  intros H.
  set (d := mkDataSet [] [worker0 "W1" ["a"] [2] 6] [task0 "T1" 5 ["a"] [2; 2] 1]).
  assert (Hc : length (filter (is_phase_finding 2) (validatePhaseSlotSaturation d)) = 1%nat)
    by reflexivity.
  apply (H d 2) in Hc. vm_compute in Hc. discriminate Hc.
Qed.

(** ** Further properties of the rules *)

(** The report partitions the findings: [errors] holds exactly the
    findings of kind error, [warnings] those of kind warning, and together
    they are a rearrangement of everything the rules produced. *)
Theorem report_partitions_findings : forall d,
  Permutation (errors (validateDataSet d) ++ warnings (validateDataSet d)) (allFindings d) /\
  Forall (fun e => type e = TError) (errors (validateDataSet d)) /\
  Forall (fun e => type e = TWarning) (warnings (validateDataSet d)).
Proof.
  intros d. rewrite errors_spec, warnings_spec. split; [|split].
  - induction (allFindings d) as [|e l IH]; [constructor|].
    destruct e as [i [|] m f et ei sv]; simpl.
    + constructor. exact IH.
    + apply Permutation_sym, Permutation_cons_app, Permutation_sym, IH.
  - apply Forall_forall. intros e He. apply filter_In in He as [_ He].
    destruct (type e); [reflexivity|discriminate].
  - apply Forall_forall. intros e He. apply filter_In in He as [_ He].
    destruct (type e); [discriminate|reflexivity].
Qed.

Lemma flat_map_map_fuse : forall {A B C} (f : B -> list C) (g : A -> B) l,
  flat_map f (map g l) = flat_map (fun x => f (g x)) l.
Proof. intros. induction l as [|x l IH]; simpl; [reflexivity|]. rewrite IH. reflexivity. Qed.

Lemma flat_map_pointwise : forall {A B} (f f' : A -> list B) l,
  (forall x, f x = f' x) -> flat_map f l = flat_map f' l.
Proof. intros. induction l as [|x l IH]; simpl; [reflexivity|]. rewrite H, IH. reflexivity. Qed.

Lemma flat_mapi_from_map_fuse : forall {A B C} (f : nat -> B -> list C) (g : A -> B) l k,
  flat_mapi_from k f (map g l) = flat_mapi_from k (fun i x => f i (g x)) l.
Proof.
  intros A B C f g l. induction l as [|x l IH]; intros k; simpl; [reflexivity|].
  rewrite IH. reflexivity.
Qed.

Lemma dup_scan_map_fuse : forall {A B} (getId : B -> string) mk (g : A -> B) l ids k,
  dup_scan getId mk ids k (map g l) = dup_scan (fun x => getId (g x)) mk ids k l.
Proof.
  intros A B getId mk g l. induction l as [|x l IH]; intros ids k; simpl; [reflexivity|].
  rewrite !IH. reflexivity.
Qed.

Lemma fold_left_map_fuse : forall {A B C} (f : C -> B -> C) (g : A -> B) l a,
  fold_left f (map g l) a = fold_left (fun acc x => f acc (g x)) l a.
Proof.
  intros A B C f g l. induction l as [|x l IH]; intros a; simpl; [reflexivity|]. apply IH.
Qed.

Lemma filter_map_fuse : forall {A B} (p : B -> bool) (g : A -> B) l,
  filter p (map g l) = map g (filter (fun x => p (g x)) l).
Proof.
  intros. induction l as [|x l IH]; simpl; [reflexivity|].
  destruct (p (g x)); simpl; rewrite IH; reflexivity.
Qed.

Lemma allFindings_blank : forall d, allFindings (blank_dataset d) = allFindings d.
Proof.
  intros [cs ws ts]. unfold allFindings.
  assert (E1 : validateMissingRequiredColumns (blank_dataset (mkDataSet cs ws ts))
               = validateMissingRequiredColumns (mkDataSet cs ws ts)).
  { unfold validateMissingRequiredColumns, flat_mapi, blank_dataset; cbn [clients workers tasks].
    rewrite !flat_mapi_from_map_fuse. reflexivity. }
  assert (E2 : validateDuplicateIDs (blank_dataset (mkDataSet cs ws ts))
               = validateDuplicateIDs (mkDataSet cs ws ts)).
  { unfold validateDuplicateIDs, blank_dataset; cbn [clients workers tasks].
    rewrite !dup_scan_map_fuse. reflexivity. }
  assert (E3 : validateMalformedLists (blank_dataset (mkDataSet cs ws ts))
               = validateMalformedLists (mkDataSet cs ws ts)).
  { unfold validateMalformedLists, blank_dataset; cbn [clients workers tasks].
    rewrite !flat_map_map_fuse. reflexivity. }
  assert (E4 : validateOutOfRangeValues (blank_dataset (mkDataSet cs ws ts))
               = validateOutOfRangeValues (mkDataSet cs ws ts)).
  { unfold validateOutOfRangeValues, blank_dataset; cbn [clients workers tasks].
    rewrite !flat_map_map_fuse. reflexivity. }
  assert (E6 : validateUnknownReferences (blank_dataset (mkDataSet cs ws ts))
               = validateUnknownReferences (mkDataSet cs ws ts)).
  { unfold validateUnknownReferences, blank_dataset; cbn [clients workers tasks].
    rewrite map_map, !flat_map_map_fuse. reflexivity. }
  assert (E7 : validateOverloadedWorkers (blank_dataset (mkDataSet cs ws ts))
               = validateOverloadedWorkers (mkDataSet cs ws ts)).
  { unfold validateOverloadedWorkers, blank_dataset; cbn [clients workers tasks].
    rewrite !flat_map_map_fuse. reflexivity. }
  assert (E8 : validatePhaseSlotSaturation (blank_dataset (mkDataSet cs ws ts))
               = validatePhaseSlotSaturation (mkDataSet cs ws ts)).
  { unfold validatePhaseSlotSaturation, phaseDemand, phaseSupply, accumulate, blank_dataset;
      cbn [clients workers tasks].
    rewrite !fold_left_map_fuse. reflexivity. }
  assert (E9 : validateSkillCoverageMatrix (blank_dataset (mkDataSet cs ws ts))
               = validateSkillCoverageMatrix (mkDataSet cs ws ts)).
  { unfold validateSkillCoverageMatrix, blank_dataset; cbn [clients workers tasks].
    rewrite fold_left_map_fuse, flat_map_map_fuse. reflexivity. }
  assert (E10 : validateMaxConcurrencyFeasibility (blank_dataset (mkDataSet cs ws ts))
               = validateMaxConcurrencyFeasibility (mkDataSet cs ws ts)).
  { unfold validateMaxConcurrencyFeasibility.
    change (tasks (blank_dataset (mkDataSet cs ws ts))) with (map blank_task ts).
    rewrite flat_map_map_fuse. apply flat_map_pointwise. intros t.
    unfold concurrency_check, qualifiedWorkers.
    change (workers (blank_dataset (mkDataSet cs ws ts))) with (map blank_worker ws).
    rewrite filter_map_fuse, length_map. reflexivity. }
  rewrite E1, E2, E3, E4, E6, E7, E8, E9, E10, !validateBrokenJSON_never_reports.
  reflexivity.
Qed.

Lemma map_blank_client : forall l l',
  map client_core l = map client_core l' -> map blank_client l = map blank_client l'.
Proof.
  induction l as [|c l IH]; intros [|c' l'] H; try discriminate; [reflexivity|].
  simpl in H. unfold client_core in H. injection H as E1 E2 E3 E4 Hl. simpl. rewrite (IH l' Hl). f_equal.
  unfold blank_client. rewrite E1, E2, E3, E4. reflexivity.
Qed.

Lemma map_blank_worker : forall l l',
  map worker_core l = map worker_core l' -> map blank_worker l = map blank_worker l'.
Proof.
  induction l as [|w l IH]; intros [|w' l'] H; try discriminate; [reflexivity|].
  simpl in H. unfold worker_core in H. injection H as E1 E2 E3 E4 E5 Hl. simpl. rewrite (IH l' Hl). f_equal.
  unfold blank_worker. rewrite E1, E2, E3, E4, E5. reflexivity.
Qed.

Lemma map_blank_task : forall l l',
  map task_core l = map task_core l' -> map blank_task l = map blank_task l'.
Proof.
  induction l as [|t l IH]; intros [|t' l'] H; try discriminate; [reflexivity|].
  simpl in H. unfold task_core in H. injection H as E1 E2 E3 E4 E5 E6 Hl. simpl. rewrite (IH l' Hl). f_equal.
  unfold blank_task. rewrite E1, E2, E3, E4, E5, E6. reflexivity.
Qed.

(** Two datasets that differ only in GroupTag, AttributesJSON, WorkerGroup,
    QualificationLevel and Category (fields no rule reads) get the same
    report, finding for finding. *)
Theorem report_ignores_unread_fields : forall d d',
  map client_core (clients d) = map client_core (clients d') ->
  map worker_core (workers d) = map worker_core (workers d') ->
  map task_core (tasks d) = map task_core (tasks d') ->
  validateDataSet d = validateDataSet d'.
Proof.
  intros d d' Hc Hw Ht.
  assert (Hb : blank_dataset d = blank_dataset d').
  { unfold blank_dataset. rewrite (map_blank_client _ _ Hc), (map_blank_worker _ _ Hw),
      (map_blank_task _ _ Ht). reflexivity. }
  unfold validateDataSet. rewrite <- (allFindings_blank d), <- (allFindings_blank d'), Hb.
  reflexivity.
Qed.

Lemma report_ignores_unread_fields_witness :
  let d := mkDataSet [client0 "C1" 7 ["T9"]] [worker0 "W1" ["a"] [0; 2] 3]
                     [task0 "T1" 4 ["a"; "b"] [2] 2] in
  let d' := mkDataSet
    [{| ClientID := "C1"; ClientName := "Acme"; PriorityLevel := 7; RequestedTaskIDs := ["T9"];
        GroupTag := "other"; AttributesJSON := JStr "{oops" |}]
    [{| WorkerID := "W1"; WorkerName := "Ann"; Skills := ["a"]; AvailableSlots := [0; 2];
        MaxLoadPerPhase := 3; WorkerGroup := "night"; QualificationLevel := "senior" |}]
    [{| TaskID := "T1"; TaskName := "Job"; Category := "design"; Duration := 4;
        RequiredSkills := ["a"; "b"]; PreferredPhases := [2]; MaxConcurrent := 2 |}] in
  validateDataSet d = validateDataSet d'.
Proof.
  intros d d'. apply report_ignores_unread_fields; reflexivity.
Defined.

(** A [forEach] that pushes at most one finding per element. *)
Lemma flat_map_guard {A B : Type} (p : A -> bool) (h : A -> B) (l : list A) :
  flat_map (fun x => if p x then [h x] else []) l = map h (filter p l).
Proof.
  induction l as [|x l IH]; [reflexivity|]. simpl. destruct (p x); simpl; rewrite IH; reflexivity.
Qed.

(** Rule 7 emits exactly one medium-severity warning per worker whose
    number of AvailableSlots is below its MaxLoadPerPhase, in worker order,
    and nothing for the other workers. *)
Theorem overloaded_workers_reported : forall d,
  map entityId (validateOverloadedWorkers d) =
    map WorkerID (filter (fun w => Z.ltb (Z.of_nat (length (AvailableSlots w)))
                                         (MaxLoadPerPhase w)) (workers d)) /\
  Forall (fun f => type f = TWarning /\ severity f = SMedium
                   /\ field f = Some "MaxLoadPerPhase") (validateOverloadedWorkers d).
Proof.
  intros d. unfold validateOverloadedWorkers. rewrite flat_map_guard. split.
  - rewrite map_map. reflexivity.
  - apply Forall_forall. intros f Hf. apply in_map_iff in Hf as (w & <- & _).
    repeat split.
Qed.

Lemma available_skills_spec : forall ws acc s,
  str_mem s (fold_left (fun acc w => fold_left set_add (Skills w) acc) ws acc) = true <->
  str_mem s acc = true \/ exists w, In w ws /\ In s (Skills w).
Proof.
  assert (Hin : forall l acc s,
    str_mem s (fold_left set_add l acc) = true <-> str_mem s acc = true \/ In s l).
  { induction l as [|x l IH]; intros acc s; simpl; [tauto|]. rewrite IH.
    unfold set_add. destruct (str_mem x acc) eqn:Ex.
    - split; [tauto|]. intros [H|[<-|H]]; auto.
    - unfold str_mem at 1. rewrite existsb_app. simpl. rewrite orb_false_r, orb_true_iff.
      fold (str_mem s acc). rewrite String.eqb_eq. split; [intros [[H|H]|H]; auto|].
      intros [H|[H|H]]; auto. }
  induction ws as [|w ws IH]; intros acc s; simpl.
  - split; [tauto|]. intros [H|(w & [] & _)]. exact H.
  - rewrite IH, Hin. split.
    + intros [[H|H]|(w' & Hw & Hs)]; [left; exact H|right; exists w; auto|right; exists w'; auto].
    + intros [H|(w' & [<-|Hw] & Hs)]; [auto|auto|right; exists w'; auto].
Qed.

(** Rule 9 reports (task, skill) for every RequiredSkills entry that no
    worker's Skills contains, in task and skill order, as a high-severity
    error; an entry some worker holds is never reported. *)
Theorem skill_gaps_reported : forall d,
  map (fun f => (entityId f, message f)) (validateSkillCoverageMatrix d) =
    flat_map (fun t =>
      map (fun s => (TaskID t, ("No worker has required skill: " ++ s)%string))
          (filter (fun s => negb (existsb (fun w => str_mem s (Skills w)) (workers d)))
                  (RequiredSkills t))) (tasks d) /\
  Forall (fun f => type f = TError /\ severity f = SHigh) (validateSkillCoverageMatrix d).
Proof.
  intros d. unfold validateSkillCoverageMatrix.
  set (avail := fold_left _ (workers d) []).
  assert (Hav : forall s, str_mem s avail = existsb (fun w => str_mem s (Skills w)) (workers d)).
  { intros s. apply eq_iff_eq_true. unfold avail. rewrite available_skills_spec, existsb_exists.
    split.
    - intros [H|(w & Hw & Hs)]; [discriminate|]. exists w. split; [exact Hw|apply str_mem_In, Hs].
    - intros (w & Hw & Hs). right. exists w. split; [exact Hw|apply str_mem_In, Hs]. }
  split.
  - rewrite flat_map_concat_map, concat_map, map_map, <- flat_map_concat_map.
    apply flat_map_ext. intros t. rewrite flat_map_guard, map_map.
    f_equal. apply filter_ext. intros s. rewrite Hav. reflexivity.
  - apply Forall_forall. intros f Hf.
    apply in_flat_map in Hf as (t & _ & Hf). rewrite flat_map_guard in Hf.
    apply in_map_iff in Hf as (s & <- & _). split; reflexivity.
Qed.

Lemma flat_map_nil_iff {A B : Type} (f : A -> list B) (l : list A) :
  flat_map f l = [] <-> forall x, In x l -> f x = [].
Proof.
  induction l as [|x l IH]; simpl; [split; [intros _ y []|reflexivity]|].
  split.
  - intros H. apply app_eq_nil in H as [H1 H2]. intros y [<-|Hy]; [exact H1|].
    apply IH; assumption.
  - intros H. rewrite (H x (or_introl eq_refl)). apply IH. intros y Hy. apply H. right; exact Hy.
Qed.

Lemma guard_nil {B : Type} (b : bool) (y : B) : (if b then [y] else []) = [] <-> b = false.
Proof. destruct b; split; (discriminate || reflexivity). Qed.

(** Rule 3 emits one finding per (worker, slot) pair whose slot is below 1,
    citing that slot, in worker and slot order; so it is silent exactly
    when every slot of every worker is at least 1. *)
Theorem malformed_slots_reported : forall d,
  map (fun f => (entityId f, message f)) (validateMalformedLists d) =
    flat_map (fun w => map (fun slot => (WorkerID w,
        ("Invalid AvailableSlot value: " ++ js_num_string slot
         ++ ". Must be positive numbers.")%string))
      (filter (fun slot => Z.ltb slot 1) (AvailableSlots w))) (workers d) /\
  (validateMalformedLists d = [] <->
   forall w slot, In w (workers d) -> In slot (AvailableSlots w) -> (1 <= slot)%Z).
Proof.
  intros d. unfold validateMalformedLists. split.
  - rewrite flat_map_concat_map, concat_map, map_map, <- flat_map_concat_map.
    apply flat_map_ext. intros w. rewrite flat_map_guard, map_map. reflexivity.
  - rewrite flat_map_nil_iff. split.
    + intros H w slot Hw Hs. specialize (H w Hw). rewrite flat_map_nil_iff in H.
      specialize (H slot Hs). apply guard_nil, Z.ltb_ge in H. exact H.
    + intros H w Hw. apply flat_map_nil_iff. intros slot Hs. apply guard_nil, Z.ltb_ge.
      exact (H w slot Hw Hs).
Qed.

Lemma string_app_cancel_l : forall a b c : string,
  (a ++ b)%string = (a ++ c)%string -> b = c.
Proof. induction a as [|ch a IH]; intros b c H; [exact H|]. injection H. apply IH. Qed.

(** Rule 4 flags a client exactly when its PriorityLevel lies outside
    1..5 and a task exactly when its Duration is below 1; both bounds of
    the priority range are inclusive. *)
Theorem out_of_range_exact : forall d,
  (forall c, In c (clients d) ->
     (In (priority_finding c) (validateOutOfRangeValues d) <->
      (PriorityLevel c < 1 \/ 5 < PriorityLevel c)%Z)) /\
  (forall t, In t (tasks d) ->
     (In (duration_finding t) (validateOutOfRangeValues d) <-> (Duration t < 1)%Z)).
Proof.
  intros d. unfold validateOutOfRangeValues. rewrite !flat_map_guard. split.
  - intros c Hc. rewrite in_app_iff, !in_map_iff. split.
    + intros [(c' & E & Hin)|(t & E & _)]; [|discriminate E].
      apply filter_In in Hin as [_ Hb]. injection E as _ Em _.
      apply js_num_string_inj in Em. rewrite <- Em.
      apply orb_true_iff in Hb as [Hb|Hb]; apply Z.ltb_lt in Hb; auto.
    + intros Hr. left. exists c. split; [reflexivity|]. apply filter_In. split; [exact Hc|].
      apply orb_true_iff. destruct Hr as [Hr|Hr]; apply Z.ltb_lt in Hr; auto.
  - intros t Ht. rewrite in_app_iff, !in_map_iff. split.
    + intros [(c & E & _)|(t' & E & Hin)]; [discriminate E|].
      apply filter_In in Hin as [_ Hb]. injection E as _ Em _.
      apply js_num_string_inj in Em. rewrite <- Em.
      apply Z.ltb_lt, Hb.
    + intros Hr. right. exists t. split; [reflexivity|]. apply filter_In.
      split; [exact Ht|]. apply Z.ltb_lt, Hr.
Qed.

Lemma out_of_range_exact_witness :
  let c := client0 "C1" 6 [] in
  let d := mkDataSet [c] [] [] in
  In c (clients d) /\
  (In (priority_finding c) (validateOutOfRangeValues d) <->
   (PriorityLevel c < 1 \/ 5 < PriorityLevel c)%Z).
Proof.
  intros c d. split; [left; reflexivity|].
  apply (proj1 (out_of_range_exact d)). left; reflexivity.
Defined.

Lemma flat_mapi_from_nil {A B : Type} (P : A -> Prop) (f : nat -> A -> list B) :
  (forall k x, f k x = [] <-> P x) ->
  forall l i, flat_mapi_from i f l = [] <-> Forall P l.
Proof.
  intros Hf l. induction l as [|x l IH]; intros i; simpl.
  - split; constructor.
  - split.
    + intros H. apply app_eq_nil in H as [H1 H2]. constructor; [apply (Hf i), H1|apply (IH (S i)), H2].
    + intros H. inversion H as [|? ? Hx Hl]; subst. rewrite (proj2 (Hf i x) Hx). apply (IH (S i)), Hl.
Qed.

Lemma Forall_flat_mapi_from {A B : Type} (P : B -> Prop) (f : nat -> A -> list B) :
  (forall k x, Forall P (f k x)) -> forall l i, Forall P (flat_mapi_from i f l).
Proof.
  intros Hf l. induction l as [|x l IH]; intros i; simpl; [constructor|].
  apply Forall_app. split; [apply Hf|apply IH].
Qed.

Lemma id_or_row_nonempty : forall ident index, id_or_row ident index <> "".
Proof.
  intros ident index. unfold id_or_row. destruct (String.eqb_spec ident "") as [_|Hne].
  - discriminate.
  - exact Hne.
Qed.

Ltac split_missing :=
  repeat match goal with
  | |- context [String.eqb ?a ""] => destruct (String.eqb_spec a "")
  | |- context [Z.eqb ?a 0] => destruct (Z.eqb_spec a 0)
  | |- context [Nat.eqb (length ?l) 0] =>
      lazymatch l with nil => fail | cons _ _ => fail | _ => destruct l end
  end; simpl;
  first [ split; [intros Hc; discriminate Hc | intros Hc; exfalso; intuition congruence]
        | split; [intros _; repeat split; (assumption || discriminate) | reflexivity] ].

Lemma missing_clients_nil : forall l i,
  flat_mapi_from i (fun index client =>
    flat_map (fun f =>
      if is_missing (client_get client f)
      then [missing_finding "client" EClient (ClientID client) index f] else [])
      requiredClientFields) l = [] <->
  Forall (fun c => ClientID c <> "" /\ ClientName c <> "" /\ PriorityLevel c <> 0%Z) l.
Proof.
  apply flat_mapi_from_nil. intros k c.
  unfold requiredClientFields, client_get, is_missing; simpl. split_missing.
Qed.

Lemma missing_workers_nil : forall l i,
  flat_mapi_from i (fun index worker =>
    flat_map (fun f =>
      if is_missing (worker_get worker f)
      then [missing_finding "worker" EWorker (WorkerID worker) index f] else [])
      requiredWorkerFields) l = [] <->
  Forall (fun w => WorkerID w <> "" /\ WorkerName w <> "" /\ Skills w <> []
                   /\ AvailableSlots w <> []) l.
Proof.
  apply flat_mapi_from_nil. intros k w.
  unfold requiredWorkerFields, worker_get, is_missing; simpl. split_missing.
Qed.

Lemma missing_tasks_nil : forall l i,
  flat_mapi_from i (fun index task =>
    flat_map (fun f =>
      if is_missing (task_get task f)
      then [missing_finding "task" ETask (TaskID task) index f] else [])
      requiredTaskFields) l = [] <->
  Forall (fun t => TaskID t <> "" /\ TaskName t <> "" /\ Duration t <> 0%Z
                   /\ RequiredSkills t <> []) l.
Proof.
  apply flat_mapi_from_nil. intros k t.
  unfold requiredTaskFields, task_get, is_missing; simpl. split_missing.
Qed.

(** Rule 1 is silent exactly when every client has a non-empty ClientID and
    ClientName and a non-zero PriorityLevel, every worker a non-empty
    WorkerID and WorkerName and non-empty Skills and AvailableSlots, and
    every task a non-empty TaskID and TaskName, a non-zero Duration and
    non-empty RequiredSkills; each finding it does emit is an error whose
    entityId is never empty (a missing ID falls back to ["Row i"]). *)
Theorem missing_fields_exact : forall d,
  (validateMissingRequiredColumns d = [] <->
    Forall (fun c => ClientID c <> "" /\ ClientName c <> "" /\ PriorityLevel c <> 0%Z)
      (clients d) /\
    Forall (fun w => WorkerID w <> "" /\ WorkerName w <> "" /\ Skills w <> []
                     /\ AvailableSlots w <> []) (workers d) /\
    Forall (fun t => TaskID t <> "" /\ TaskName t <> "" /\ Duration t <> 0%Z
                     /\ RequiredSkills t <> []) (tasks d)) /\
  Forall (fun f => entityId f <> "" /\ type f = TError) (validateMissingRequiredColumns d).
Proof.
  intros d. unfold validateMissingRequiredColumns, flat_mapi. split.
  - split.
    + intros H. apply app_eq_nil in H as [H1 H]. apply app_eq_nil in H as [H2 H3].
      split; [apply (missing_clients_nil _ 0), H1|].
      split; [apply (missing_workers_nil _ 0), H2|apply (missing_tasks_nil _ 0), H3].
    + intros (H1 & H2 & H3).
      rewrite (proj2 (missing_clients_nil _ 0) H1), (proj2 (missing_workers_nil _ 0) H2),
        (proj2 (missing_tasks_nil _ 0) H3).
      reflexivity.
  - rewrite !Forall_app. repeat split; apply Forall_flat_mapi_from; intros k x;
      apply Forall_forall; intros f Hf; apply in_flat_map in Hf as (fld & _ & Hf);
      (destruct (is_missing _); [destruct Hf as [<-|[]]|destruct Hf]);
      split; (reflexivity || apply id_or_row_nonempty).
Qed.

Lemma saturation_ids_from : forall (s m : zmap) f,
  In f (flat_map (saturation_step s) m) ->
  exists p, In p (map fst m) /\ id f = ("phase-saturation-" ++ js_num_string p)%string.
Proof.
  intros s m f Hf. apply in_flat_map in Hf as ([p dem] & Hin & Hf). simpl in Hf.
  destruct (Z.ltb _ _); [destruct Hf as [<-|[]]|destruct Hf].
  exists p. split; [apply in_map_iff; exists (p, dem); auto|reflexivity].
Qed.

(** The ids of rule 8's findings are pairwise distinct: the demand map has
    each phase once, and a phase's id ["phase-saturation-" ++ p] determines
    the phase. *)
Theorem phase_saturation_ids_distinct : forall d,
  NoDup (map id (validatePhaseSlotSaturation d)).
Proof.
  intros d.
  assert (Hnd : NoDup (map fst (phaseDemand d)))
    by (apply accumulate_nodup; constructor).
  change (validatePhaseSlotSaturation d)
    with (flat_map (saturation_step (phaseSupply d)) (phaseDemand d)).
  induction (phaseDemand d) as [|[p dem] m IH]; simpl; [constructor|].
  simpl in Hnd. inversion Hnd as [|? ? Hp Hm]; subst.
  destruct (Z.ltb _ _); simpl; [|exact (IH Hm)].
  constructor; [|exact (IH Hm)].
  intros Hin. apply in_map_iff in Hin as (f & Hid & Hf).
  apply saturation_ids_from in Hf as (q & Hq & Hfq). rewrite Hfq in Hid.
  apply (string_app_cancel_l "phase-saturation-"), js_num_string_inj in Hid.
  subst q. exact (Hp Hq).
Qed.

Lemma digit_prefix_uint : forall u rest,
  digit_prefix 10 (NilEmpty.string_of_uint u ++ rest)%string = uint_digits u ++ digit_prefix 10 rest.
Proof. induction u; intros rest; simpl; try rewrite IHu; reflexivity. Qed.

Lemma digits_value_acc : forall u acc,
  fold_left (fun acc d => acc * 10 + d) (uint_digits u) (Zpos acc) = Zpos (Pos.of_uint_acc u acc).
Proof.
  induction u; intros acc; cbn [uint_digits fold_left Pos.of_uint_acc]; try reflexivity;
    rewrite <- IHu; f_equal; rewrite ?Pos2Z.inj_add, Pos2Z.inj_mul; lia.
Qed.

Lemma digits_value_uint : forall u, digits_value 10 (uint_digits u) = Z.of_uint u.
Proof.
  unfold digits_value, Z.of_uint. induction u; simpl; try exact IHu; try reflexivity;
    rewrite <- digits_value_acc; reflexivity.
Qed.

Lemma digit_prefix_boundary : forall rest, number_boundary rest = true -> digit_prefix 10 rest = [].
Proof.
  intros [|c r] H; [reflexivity|]. simpl in *. apply andb_prop in H as [H _].
  apply Z.leb_le in H. destruct (Z.ltb_spec (digit_value c) 10); [lia|reflexivity].
Qed.

Lemma int_radix_uint : forall u rest, u <> Decimal.Nil -> number_boundary rest = true ->
  int_radix (NilEmpty.string_of_uint u ++ rest)%string = (10, (NilEmpty.string_of_uint u ++ rest)%string).
Proof.
  intros u rest Hu Hr. destruct u as [|u|u|u|u|u|u|u|u|u|u]; [congruence| |
    cbn [NilEmpty.string_of_uint append]; unfold int_radix;
    destruct (NilEmpty.string_of_uint u ++ rest)%string; reflexivity..].
  destruct u; try reflexivity. destruct rest as [|x r]; [reflexivity|]. simpl in *.
  apply andb_prop in Hr as [_ Hr]. destruct (Ascii.eqb x "x"%char || Ascii.eqb x "X"%char);
    [discriminate|reflexivity].
Qed.

Lemma uint_nonempty_start : forall u rest, u <> Decimal.Nil ->
  trim_start (NilEmpty.string_of_uint u ++ rest)%string = (NilEmpty.string_of_uint u ++ rest)%string /\
  int_sign (NilEmpty.string_of_uint u ++ rest)%string = (1, (NilEmpty.string_of_uint u ++ rest)%string).
Proof.
  intros u rest Hu. destruct u; [congruence|..]; split; reflexivity.
Qed.

Lemma parseInt_uint : forall u rest, u <> Decimal.Nil -> number_boundary rest = true ->
  parseInt (NilEmpty.string_of_uint u ++ rest)%string = Some (Z.of_uint u).
Proof.
  intros u rest Hu Hr. unfold parseInt.
  destruct (uint_nonempty_start u rest Hu) as [-> ->]. rewrite int_radix_uint by assumption.
  rewrite digit_prefix_uint, digit_prefix_boundary, app_nil_r by assumption.
  destruct u; [congruence|..]; cbn [uint_digits];
    rewrite <- digits_value_uint; cbn [uint_digits]; f_equal; lia.
Qed.

Lemma parseInt_neg_uint : forall u rest, u <> Decimal.Nil -> number_boundary rest = true ->
  parseInt (String "-" (NilEmpty.string_of_uint u ++ rest)%string) = Some (- Z.of_uint u).
Proof.
  intros u rest Hu Hr. unfold parseInt. cbn [trim_start int_sign].
  change (is_js_space "-") with false. cbv iota. unfold int_sign at 1.
  change (Ascii.eqb "-" "-") with true. cbv iota beta.
  rewrite int_radix_uint by assumption.
  rewrite digit_prefix_uint, digit_prefix_boundary, app_nil_r by assumption.
  destruct u; [congruence|..]; cbn [uint_digits];
    rewrite <- digits_value_uint; cbn [uint_digits]; f_equal; lia.
Qed.

Lemma parseInt_num : forall n rest, number_boundary rest = true ->
  parseInt (js_num_string n ++ rest)%string = Some n.
Proof.
  intros n rest Hr. pose proof (DecimalZ.of_to n) as Hn. unfold js_num_string.
  destruct (Z.to_int n) as [u|u] eqn:E; simpl in Hn.
  - assert (Hu : u <> Decimal.Nil) by (intros ->; simpl in Hn; subst n; discriminate E).
    cbn [NilEmpty.string_of_int]. rewrite parseInt_uint by assumption. rewrite Hn. reflexivity.
  - assert (Hu : u <> Decimal.Nil) by (intros ->; simpl in Hn; subst n; discriminate E).
    cbn [NilEmpty.string_of_int append]. rewrite parseInt_neg_uint by assumption. rewrite Hn. reflexivity.
Qed.

Lemma str_app_nil_r : forall s : string, (s ++ "")%string = s.
Proof. induction s as [|c s IH]; simpl; [reflexivity|rewrite IH; reflexivity]. Qed.

Lemma str_app_assoc : forall a b c : string, ((a ++ b) ++ c)%string = (a ++ (b ++ c))%string.
Proof. induction a as [|x a IH]; intros b c; simpl; [reflexivity|rewrite IH; reflexivity]. Qed.

Lemma str_forallb_app : forall p a b,
  str_forallb p (a ++ b)%string = str_forallb p a && str_forallb p b.
Proof.
  intros p a b. induction a as [|c a IH]; simpl; [reflexivity|]. rewrite IH, andb_assoc. reflexivity.
Qed.

Lemma last_char_app : forall a b, b <> "" -> last_char (a ++ b)%string = last_char b.
Proof.
  intros a b Hb. induction a as [|c a IH]; [reflexivity|]. destruct a as [|c' a'].
  - simpl. destruct b; [contradiction|reflexivity].
  - exact IH.
Qed.

Lemma last_char_forallb : forall p s c, str_forallb p s = true -> last_char s = Some c -> p c = true.
Proof.
  intros p s c. induction s as [|x s IH]; intros H Hl; [discriminate|].
  simpl in H. apply andb_prop in H as [Hx Hs]. destruct s as [|y s].
  - injection Hl as <-. exact Hx.
  - apply IH; assumption.
Qed.

Lemma trim_end_cons : forall c r,
  trim_end (String c r) =
  if String.eqb (trim_end r) EmptyString && is_js_space c then EmptyString
  else String c (trim_end r).
Proof. reflexivity. Qed.

Lemma trim_end_id : forall s,
  (forall c, last_char s = Some c -> is_js_space c = false) -> trim_end s = s.
Proof.
  induction s as [|c r IH]; intros H; [reflexivity|]. destruct r as [|c' r'].
  - simpl. rewrite (H c eq_refl). reflexivity.
  - rewrite trim_end_cons, IH by exact H. reflexivity.
Qed.

Lemma trim_id : forall s,
  (forall c r, s = String c r -> is_js_space c = false) ->
  (forall c, last_char s = Some c -> is_js_space c = false) -> trim s = s.
Proof.
  intros s H1 H2. unfold trim. destruct s as [|c r]; [reflexivity|].
  simpl. rewrite (H1 c r eq_refl). apply trim_end_id, H2.
Qed.

Lemma trim_space : forall s, trim (String " " s) = trim s.
Proof. reflexivity. Qed.

Lemma trim_empty : trim "" = "".
Proof. reflexivity. Qed.

Lemma js_split_app : forall sep a b, no_char sep a = true ->
  js_split sep (a ++ String sep b)%string = a :: js_split sep b.
Proof.
  intros sep a b. induction a as [|c a IH]; intros H.
  - simpl. rewrite Ascii.eqb_refl. reflexivity.
  - unfold no_char in H. simpl in H. apply andb_prop in H as [Hc Ha].
    simpl. rewrite IH by exact Ha. apply negb_true_iff in Hc. rewrite Hc. reflexivity.
Qed.

Lemma js_split_nosep : forall sep a, no_char sep a = true -> js_split sep a = [a].
Proof.
  intros sep a. induction a as [|c a IH]; intros H; [reflexivity|].
  unfold no_char in H. simpl in H. apply andb_prop in H as [Hc Ha].
  simpl. rewrite IH by exact Ha. apply negb_true_iff in Hc. rewrite Hc. reflexivity.
Qed.

Lemma js_split_nonnil : forall sep s, js_split sep s <> [].
Proof.
  intros sep [|c r]; simpl; [discriminate|].
  destruct (Ascii.eqb c sep); [discriminate|]. destruct (js_split sep r); discriminate.
Qed.

Lemma js_split_prefix : forall sep a t, no_char sep a = true ->
  js_split sep (a ++ t)%string =
  match js_split sep t with [] => [a] | y :: ys => (a ++ y)%string :: ys end.
Proof.
  intros sep a t. induction a as [|c a IH]; intros H.
  - simpl. destruct (js_split sep t) eqn:E; [exfalso; exact (js_split_nonnil _ _ E)|].
    reflexivity.
  - unfold no_char in H. simpl in H. apply andb_prop in H as [Hc Ha].
    simpl. rewrite IH by exact Ha. apply negb_true_iff in Hc. rewrite Hc.
    destruct (js_split sep t); reflexivity.
Qed.

Lemma js_split_concat : forall sep sfx xs x,
  no_char sep sfx = true -> no_char sep x = true -> Forall (fun y => no_char sep y = true) xs ->
  js_split sep (String.concat (String sep sfx) (x :: xs)) = x :: map (fun y => (sfx ++ y)%string) xs.
Proof.
  intros sep sfx xs. induction xs as [|y xs IH]; intros x Hs Hx Hxs.
  - simpl. apply js_split_nosep, Hx.
  - inversion Hxs as [|? ? Hy Hxs']; subst.
    change (String.concat (String sep sfx) (x :: y :: xs))
      with (x ++ String sep (sfx ++ String.concat (String sep sfx) (y :: xs)))%string.
    rewrite js_split_app by exact Hx. f_equal.
    rewrite js_split_prefix by exact Hs. rewrite (IH y Hs Hy Hxs'). reflexivity.
Qed.

Lemma dec_digit_not_space : forall c, is_dec_digit c = true -> is_js_space c = false.
Proof.
  intros c H. unfold is_dec_digit, is_js_space in *. apply andb_prop in H as [H1 H2].
  apply Nat.leb_le in H1. apply Nat.leb_le in H2.
  destruct (Nat.leb_spec 9 (nat_of_ascii c)), (Nat.leb_spec (nat_of_ascii c) 13),
    (Nat.eqb_spec (nat_of_ascii c) 32), (Nat.eqb_spec (nat_of_ascii c) 160);
    simpl; try reflexivity; lia.
Qed.

Lemma dec_digit_neq : forall c d, is_dec_digit c = true -> is_dec_digit d = false -> Ascii.eqb c d = false.
Proof.
  intros c d Hc Hd. destruct (Ascii.eqb_spec c d) as [->|]; [congruence|reflexivity].
Qed.

Lemma uint_string_digits : forall u, str_forallb is_dec_digit (NilEmpty.string_of_uint u) = true.
Proof. induction u; simpl; try rewrite IHu; reflexivity. Qed.

Lemma forallb_last_char_digit : forall s, s <> "" -> str_forallb is_dec_digit s = true ->
  exists c, last_char s = Some c /\ is_dec_digit c = true.
Proof.
  induction s as [|c s IH]; intros Hne H; [contradiction|]. simpl in H.
  apply andb_prop in H as [Hc Hs]. destruct s as [|c' s'].
  - exists c. split; [reflexivity|exact Hc].
  - apply IH; [discriminate|exact Hs].
Qed.

(** The decimal text of an integer: an optional [-], then at least one digit. *)
Lemma js_num_string_shape : forall n, exists sign digits,
  js_num_string n = (sign ++ digits)%string /\ (sign = "" \/ sign = "-") /\
  (sign = "-" -> n < 0) /\ (n < 0 -> sign = "-") /\
  digits <> "" /\ str_forallb is_dec_digit digits = true.
Proof.
  intros n. pose proof (DecimalZ.of_to n) as Hn. unfold js_num_string.
  destruct (Z.to_int n) as [u|u] eqn:E; simpl in Hn.
  - assert (Hu : u <> Decimal.Nil) by (intros ->; simpl in Hn; subst n; discriminate E).
    exists "", (NilEmpty.string_of_uint u).
    split; [reflexivity|]. split; [left; reflexivity|]. split; [discriminate|].
    split; [intros Hlt; unfold Z.of_uint in Hn; lia|].
    split; [destruct u; [congruence|discriminate..]|apply uint_string_digits].
  - assert (Hu : u <> Decimal.Nil) by (intros ->; simpl in Hn; subst n; discriminate E).
    exists "-", (NilEmpty.string_of_uint u).
    split; [reflexivity|]. split; [right; reflexivity|].
    split; [intros _|split; [reflexivity|]].
    + assert (Hpos : 0 <= Z.of_uint u) by (unfold Z.of_uint; lia).
      destruct (Z.eq_dec (Z.of_uint u) 0) as [H0|H0]; [|lia].
      rewrite H0 in Hn. subst n. discriminate E.
    + split; [destruct u; [congruence|discriminate..]|apply uint_string_digits].
Qed.

Lemma str_forallb_impl : forall (p q : ascii -> bool) s,
  (forall c, p c = true -> q c = true) -> str_forallb p s = true -> str_forallb q s = true.
Proof.
  intros p q s Hpq. induction s as [|c s IH]; simpl; [reflexivity|].
  intros H. apply andb_prop in H as [Hc Hs]. rewrite (Hpq c Hc), (IH Hs). reflexivity.
Qed.

Lemma dec_digit_code : forall c, is_dec_digit c = true ->
  (48 <= nat_of_ascii c <= 57)%nat.
Proof.
  intros c H. unfold is_dec_digit in H. apply andb_prop in H as [H1 H2].
  apply Nat.leb_le in H1. apply Nat.leb_le in H2. lia.
Qed.

Lemma ascii_neq_code : forall c d, nat_of_ascii c <> nat_of_ascii d -> Ascii.eqb c d = false.
Proof.
  intros c d H. destruct (Ascii.eqb_spec c d) as [->|]; [contradiction|reflexivity].
Qed.

(** The properties of a number's text used when it is read back. *)
Lemma js_num_string_props : forall n,
  trim (js_num_string n) = js_num_string n /\
  (forall x, is_dec_digit x = false -> x <> "-"%char -> no_char x (js_num_string n) = true) /\
  (exists c t, js_num_string n = String c t /\ (is_dec_digit c = true \/ c = "-"%char)) /\
  (exists d, last_char (js_num_string n) = Some d /\ is_dec_digit d = true).
Proof.
  intros n. destruct (js_num_string_shape n) as (sign & digits & E & Hs & _ & _ & Hne & Hd).
  destruct (forallb_last_char_digit digits Hne Hd) as (d & Hl & Hdd).
  assert (Hlast : last_char (js_num_string n) = Some d)
    by (rewrite E, last_char_app by exact Hne; exact Hl).
  assert (Hfirst : exists c t, js_num_string n = String c t /\ (is_dec_digit c = true \/ c = "-"%char)).
  { destruct Hs as [-> | ->].
    - destruct digits as [|c t]; [contradiction|]. exists c, t. simpl in Hd.
      apply andb_prop in Hd as [Hc _]. split; [exact E|left; exact Hc].
    - exists "-"%char, digits. split; [exact E|right; reflexivity]. }
  split; [|split; [|split; [exact Hfirst|exists d; split; assumption]]].
  - destruct Hfirst as (c & t & Ec & Hc). apply trim_id.
    + intros c' r' E'. rewrite Ec in E'. injection E' as <- _.
      destruct Hc as [Hc| ->]; [apply dec_digit_not_space, Hc|reflexivity].
    + intros c' Hc'. rewrite Hlast in Hc'. injection Hc' as <-. apply dec_digit_not_space, Hdd.
  - intros x Hx Hxm. rewrite E. unfold no_char. rewrite str_forallb_app. apply andb_true_intro. split.
    + destruct Hs as [-> | ->]; [reflexivity|].
      assert (Hm : Ascii.eqb "-" x = false) by (destruct (Ascii.eqb_spec "-" x); congruence).
      cbn [str_forallb]. rewrite Hm. reflexivity.
    + apply (str_forallb_impl is_dec_digit); [|exact Hd]. intros c Hc.
      destruct (Ascii.eqb_spec c x) as [->|]; [congruence|reflexivity].
Qed.

Lemma drop_last_snoc : forall y c, drop_last (y ++ String c "")%string = y.
Proof.
  induction y as [|x y IH]; intros c; [reflexivity|].
  specialize (IH c). destruct y as [|x' y']; [reflexivity|].
  change (String x (drop_last (String x' (y' ++ String c "")%string)) = String x (String x' y')).
  change (drop_last (String x' (y' ++ String c "")%string) = String x' y') in IH.
  rewrite IH. reflexivity.
Qed.

Lemma last_char_snoc : forall y c, last_char (y ++ String c "")%string = Some c.
Proof. intros y c. rewrite last_char_app by discriminate. reflexivity. Qed.

(** Text wrapped in brackets is unwrapped and trimmed. *)
Lemma clean_bracketed : forall y,
  clean_array_text ("[" ++ y ++ "]")%string = trim y.
Proof.
  intros y. unfold clean_array_text.
  assert (Ht : trim ("[" ++ y ++ "]")%string = ("[" ++ y ++ "]")%string).
  { apply trim_id.
    - intros c r E. injection E as <- _. reflexivity.
    - intros c Hc. rewrite <- str_app_assoc, last_char_snoc in Hc.
      injection Hc as <-. reflexivity. }
  rewrite Ht. change ("[" ++ y ++ "]")%string with (String "[" (y ++ "]")%string).
  unfold strip_start, strip_end. cbn -[trim drop_last last_char append].
  rewrite last_char_snoc. cbn -[trim drop_last last_char append].
  rewrite drop_last_snoc. reflexivity.
Qed.

(** Text with no outer quote, bracket or white space is left as it is. *)
Lemma clean_plain : forall y c t d, y = String c t -> last_char y = Some d ->
  is_js_space c = false -> is_js_space d = false -> is_quote c = false ->
  Ascii.eqb c "[" = false -> Ascii.eqb d "]" = false -> clean_array_text y = y.
Proof.
  intros y c t d Ey Hl Hc Hd Hq Hb1 Hb2. unfold clean_array_text.
  assert (Ht : trim y = y).
  { apply trim_id.
    - intros c' r E. rewrite Ey in E. injection E as <- _. exact Hc.
    - intros c' E. rewrite Hl in E. injection E as <-. exact Hd. }
  rewrite Ht. unfold is_quote in Hq. apply orb_false_elim in Hq as [Hq1 Hq2].
  rewrite Ey. simpl (starts_with _ _). rewrite Hq1, Hq2. simpl orb. cbv iota.
  unfold strip_start. rewrite Hb1. unfold strip_end. rewrite <- Ey, Hl, Hb2. exact Ht.
Qed.

Lemma str_app_nonempty : forall a b, b <> "" -> (a ++ b)%string <> "".
Proof. intros [|c a] b H; simpl; [exact H|discriminate]. Qed.

Lemma concat_cons_prefix : forall sep x xs, exists r, String.concat sep (x :: xs) = (x ++ r)%string.
Proof.
  intros sep x [|y xs].
  - exists "". rewrite str_app_nil_r. reflexivity.
  - exists (sep ++ String.concat sep (y :: xs))%string. reflexivity.
Qed.

Lemma concat_last_char : forall sep xs x, Forall (fun y => y <> "") xs -> x <> "" ->
  last_char (String.concat sep (x :: xs)) = last_char (last (x :: xs) "").
Proof.
  intros sep xs. induction xs as [|y xs IH]; intros x Hxs Hx; [reflexivity|].
  inversion Hxs as [|? ? Hy Hxs']; subst.
  change (String.concat sep (x :: y :: xs))
    with (x ++ (sep ++ String.concat sep (y :: xs)))%string.
  destruct (concat_cons_prefix sep y xs) as [r Er].
  assert (Hne : String.concat sep (y :: xs) <> "") by (rewrite Er; destruct y; [contradiction|discriminate]).
  rewrite last_char_app by (apply str_app_nonempty, Hne).
  rewrite last_char_app by exact Hne. rewrite (IH y Hxs' Hy). reflexivity.
Qed.

Lemma In_last : forall {A} (x : A) xs d, In (last (x :: xs) d) (x :: xs).
Proof.
  intros A x xs d. revert x. induction xs as [|y xs IH]; intros x; [left; reflexivity|].
  right. apply IH.
Qed.

(** Joining pieces with [', '] and splitting at [','] gives the pieces
    back after trimming, when no piece has a comma or outer white space. *)
Lemma split_trim_concat : forall p ps,
  Forall (fun q => no_char "," q = true /\ trim q = q) (p :: ps) ->
  map trim (js_split "," (String.concat ", " (p :: ps))) = p :: ps.
Proof.
  intros p ps H. inversion H as [|? ? [Hp Tp] Hps]; subst.
  rewrite (js_split_concat "," " " ps p eq_refl Hp).
  2:{ eapply Forall_impl; [|exact Hps]. intros q [Hq _]. exact Hq. }
  simpl. rewrite Tp, map_map. f_equal.
  rewrite <- (map_id ps) at 2. apply map_ext_in. intros q Hq.
  rewrite trim_space. rewrite Forall_forall in Hps. apply (Hps q Hq).
Qed.

(** The outer characters of a joined text are those of its first and
    last piece. *)
Lemma concat_edges : forall sep p ps,
  Forall (fun q => q <> "") (p :: ps) ->
  (exists c t, String.concat sep (p :: ps) = String c t /\ exists t', p = String c t') /\
  last_char (String.concat sep (p :: ps)) = last_char (last (p :: ps) "").
Proof.
  intros sep p ps H. inversion H as [|? ? Hp Hps]; subst. split.
  - destruct (concat_cons_prefix sep p ps) as [r Er]. rewrite Er.
    destruct p as [|c t]; [contradiction|]. exists c, (t ++ r)%string. split; [reflexivity|].
    exists t. reflexivity.
  - apply concat_last_char; assumption.
Qed.

Ltac code_neq :=
  apply ascii_neq_code;
  match goal with
  | |- nat_of_ascii _ <> nat_of_ascii ?d =>
      let n := eval vm_compute in (nat_of_ascii d) in change (nat_of_ascii d) with n; lia
  end.

Ltac code_neq_raw :=
  match goal with
  | |- nat_of_ascii _ <> nat_of_ascii ?d =>
      let n := eval vm_compute in (nat_of_ascii d) in change (nat_of_ascii d) with n; lia
  end.

Lemma digit_or_minus_plain : forall c, (is_dec_digit c = true \/ c = "-"%char) ->
  is_js_space c = false /\ is_quote c = false /\ Ascii.eqb c "[" = false /\
  Ascii.eqb c "]" = false /\ Ascii.eqb c "," = false.
Proof.
  intros c [Hc| ->]; [|repeat split; reflexivity].
  apply dec_digit_code in Hc. split; [|split; [|split; [|split]]].
  - unfold is_js_space. destruct (Nat.leb_spec 9 (nat_of_ascii c)), (Nat.leb_spec (nat_of_ascii c) 13),
      (Nat.eqb_spec (nat_of_ascii c) 32), (Nat.eqb_spec (nat_of_ascii c) 160);
      simpl; try reflexivity; lia.
  - unfold is_quote. rewrite (ascii_neq_code c dquote), (ascii_neq_code c squote);
      [reflexivity|..]; code_neq_raw.
  - code_neq.
  - code_neq.
  - code_neq.
Qed.

Lemma trim_bracketed : forall y, trim ("[" ++ y ++ "]")%string = ("[" ++ y ++ "]")%string.
Proof.
  intros y. apply trim_id.
  - intros c r E. injection E as <- _. reflexivity.
  - intros c Hc. rewrite <- str_app_assoc, last_char_snoc in Hc. injection Hc as <-. reflexivity.
Qed.

Lemma num_pieces_ok : forall ns,
  Forall (fun q => no_char "," q = true /\ trim q = q) (map js_num_string ns).
Proof.
  intros ns. apply Forall_forall. intros q Hq. apply in_map_iff in Hq as (n & <- & _).
  destruct (js_num_string_props n) as (T & N & _ & _). split; [|exact T].
  apply N; [reflexivity|discriminate].
Qed.

Lemma num_text_edges : forall n ns,
  exists c t, String.concat ", " (map js_num_string (n :: ns)) = String c t /\
    (is_dec_digit c = true \/ c = "-"%char) /\
    exists d, last_char (String.concat ", " (map js_num_string (n :: ns))) = Some d /\
              is_dec_digit d = true.
Proof.
  intros n ns.
  assert (Hne : Forall (fun q => q <> "") (map js_num_string (n :: ns))).
  { apply Forall_forall. intros q Hq. apply in_map_iff in Hq as (m & <- & _).
    destruct (js_num_string_props m) as (_ & _ & (c & t & E & _) & _). rewrite E. discriminate. }
  destruct (concat_edges ", " (js_num_string n) (map js_num_string ns) Hne)
    as [(c & t & E & t' & Ep) Hl].
  exists c, t. split; [exact E|]. split.
  - destruct (js_num_string_props n) as (_ & _ & (c' & t'' & E' & Hc') & _).
    rewrite Ep in E'. injection E' as <- _. exact Hc'.
  - change (map js_num_string (n :: ns)) with (js_num_string n :: map js_num_string ns).
    rewrite Hl.
    pose proof (In_last (js_num_string n) (map js_num_string ns) "") as Hin.
    change (js_num_string n :: map js_num_string ns) with (map js_num_string (n :: ns)) in Hin |- *.
    apply in_map_iff in Hin as (m & Em & _). rewrite <- Em.
    destruct (js_num_string_props m) as (_ & _ & _ & (d & Hd & Hdd)). exists d. split; assumption.
Qed.

Lemma read_numbers : forall n ns,
  flat_map (fun o => match o with Some k => [k] | None => [] end)
    (map (fun item => parseInt (trim item))
       (js_split "," (String.concat ", " (map js_num_string (n :: ns))))) = n :: ns.
Proof.
  intros n ns. rewrite <- (map_map trim parseInt).
  change (map js_num_string (n :: ns)) with (js_num_string n :: map js_num_string ns).
  rewrite split_trim_concat by (exact (num_pieces_ok (n :: ns))).
  change (js_num_string n :: map js_num_string ns) with (map js_num_string (n :: ns)).
  generalize (n :: ns). intros l. induction l as [|m l IH]; [reflexivity|].
  simpl. rewrite <- (str_app_nil_r (js_num_string m)), parseInt_num by reflexivity.
  rewrite IH. reflexivity.
Qed.

(** parseNumberArrayField reads back a list of integers written with
    [', '] between them, with or without surrounding brackets (for
    integers a double holds exactly). *)
Theorem parseNumberArrayField_round_trip : forall ns,
  Forall (fun n => Z.abs n <= 2 ^ 53) ns ->
  parseNumberArrayField (String.concat ", " (map js_num_string ns)) = ns /\
  parseNumberArrayField ("[" ++ String.concat ", " (map js_num_string ns) ++ "]")%string = ns.
Proof.
  intros ns _. destruct ns as [|n ns]; [split; reflexivity|].
  destruct (num_text_edges n ns) as (c & t & EX & Hc & d & Hd & Hdd).
  set (X := String.concat ", " (map js_num_string (n :: ns))) in *.
  destruct (digit_or_minus_plain c Hc) as (Hc1 & Hc2 & Hc3 & _ & _).
  destruct (digit_or_minus_plain d (or_introl Hdd)) as (Hd1 & _ & _ & Hd4 & _).
  assert (TX : trim X = X).
  { apply trim_id.
    - intros c' r E. rewrite EX in E. injection E as <- _. exact Hc1.
    - intros c' E. rewrite Hd in E. injection E as <-. exact Hd1. }
  assert (HX : String.eqb X "" = false) by (rewrite EX; reflexivity).
  split.
  - unfold parseNumberArrayField. rewrite TX, HX. simpl orb. cbv iota zeta.
    rewrite (clean_plain X c t d EX Hd Hc1 Hd1 Hc2 Hc3 Hd4), HX. apply read_numbers.
  - unfold parseNumberArrayField. rewrite trim_bracketed.
    assert (HV : String.eqb ("[" ++ X ++ "]")%string "" = false) by reflexivity.
    rewrite HV. simpl orb. cbv iota zeta.
    rewrite clean_bracketed, TX, HX. apply read_numbers.
Qed.

Lemma plain_item_props : forall s, plain_item s = true ->
  no_char "," s = true /\ trim s = s /\
  exists c t d, s = String c t /\ last_char s = Some d /\
    is_js_space c = false /\ is_js_space d = false /\
    plain_char c = true /\ plain_char d = true.
Proof.
  intros s H. unfold plain_item in H. apply andb_prop in H as [H Hl].
  apply andb_prop in H as [Hp Hf].
  destruct s as [|c t]; [discriminate|].
  destruct (last_char (String c t)) as [d|] eqn:Ed; [|discriminate].
  apply negb_true_iff in Hf. apply negb_true_iff in Hl.
  assert (Hpd : plain_char d = true) by (apply (last_char_forallb _ _ _ Hp Ed)).
  assert (Hpc : plain_char c = true) by (simpl in Hp; apply andb_prop in Hp as [Hpc _]; exact Hpc).
  split; [|split].
  - unfold no_char. apply (str_forallb_impl plain_char); [|exact Hp].
    intros x Hx. unfold plain_char in Hx. apply negb_true_iff in Hx.
    apply orb_false_elim in Hx as [Hx _]. apply orb_false_elim in Hx as [Hx _].
    apply orb_false_elim in Hx as [_ Hx]. rewrite Hx. reflexivity.
  - apply trim_id.
    + intros c' r E. injection E as <- _. exact Hf.
    + intros c' E. rewrite Ed in E. injection E as <-. exact Hl.
  - exists c, t, d. repeat split; assumption.
Qed.

Lemma plain_char_parts : forall c, plain_char c = true ->
  is_quote c = false /\ Ascii.eqb c "[" = false /\ Ascii.eqb c "]" = false.
Proof.
  intros c H. unfold plain_char in H. apply negb_true_iff in H.
  apply orb_false_elim in H as [H H3]. apply orb_false_elim in H as [H H2].
  apply orb_false_elim in H as [H1 _]. auto.
Qed.

Lemma strip_quotes_plain : forall s, plain_item s = true ->
  strip_end is_quote (strip_start is_quote s) = s.
Proof.
  intros s H. destruct (plain_item_props s H) as (_ & _ & c & t & d & E & Hl & _ & _ & Hc & Hd).
  destruct (plain_char_parts c Hc) as [Qc _]. destruct (plain_char_parts d Hd) as [Qd _].
  rewrite E. simpl strip_start. rewrite Qc. rewrite <- E. unfold strip_end. rewrite Hl, Qd.
  reflexivity.
Qed.


Lemma filter_nonempty_id : forall l, Forall (fun s => s <> "") l ->
  filter (fun item => negb (String.eqb item "")) l = l.
Proof.
  intros l H. induction H as [|x l Hx _ IH]; [reflexivity|]. simpl.
  destruct (String.eqb_spec x "") as [E|_]; [contradiction|]. simpl. rewrite IH. reflexivity.
Qed.

(** parseArrayField reads back a list of plain items written with [', ']
    between them, with or without surrounding brackets. *)
Theorem parseArrayField_plain_round_trip : forall items,
  forallb plain_item items = true ->
  parseArrayField (String.concat ", " items) = items /\
  parseArrayField ("[" ++ String.concat ", " items ++ "]")%string = items.
Proof.
  intros items H. destruct items as [|p ps]; [split; reflexivity|].
  assert (HF : Forall (fun s => plain_item s = true) (p :: ps))
    by (apply Forall_forall; intros s Hs; rewrite forallb_forall in H; apply H, Hs).
  assert (Hne : Forall (fun s => s <> "") (p :: ps)).
  { eapply Forall_impl; [|exact HF]. intros s Hs.
    destruct (plain_item_props s Hs) as (_ & _ & c & t & _ & E & _). rewrite E. discriminate. }
  assert (Hok : Forall (fun q => no_char "," q = true /\ trim q = q) (p :: ps)).
  { eapply Forall_impl; [|exact HF]. intros s Hs.
    destruct (plain_item_props s Hs) as (N & T & _). split; assumption. }
  assert (Hread : forall cleaned, cleaned = String.concat ", " (p :: ps) ->
    filter (fun item => negb (String.eqb item ""))
      (map (fun item => strip_end is_quote (strip_start is_quote (trim item)))
         (js_split "," cleaned)) = p :: ps).
  { intros cleaned ->. rewrite <- (map_map trim (fun i => strip_end is_quote (strip_start is_quote i))).
    rewrite split_trim_concat by exact Hok.
    rewrite map_ext_in with (g := fun i => i).
    - rewrite map_id. apply filter_nonempty_id, Hne.
    - intros s Hs. apply strip_quotes_plain. rewrite Forall_forall in HF. apply HF, Hs. }
  destruct (concat_edges ", " p ps Hne) as [(c & t & EX & t' & Ep) Hl].
  set (X := String.concat ", " (p :: ps)) in *.
  pose proof (Forall_inv HF) as Hp. simpl in Hp.
  destruct (plain_item_props p Hp) as (_ & _ & c' & t'' & d' & Ep' & _ & Hc1 & _ & Hpc & _).
  rewrite Ep in Ep'. injection Ep' as <- _.
  pose proof (In_last p ps "") as Hin. rewrite Forall_forall in HF.
  destruct (plain_item_props _ (HF _ Hin)) as (_ & _ & c2 & t2 & d & E2 & Hd & _ & Hd1 & _ & Hpd).
  rewrite Hd in Hl.
  destruct (plain_char_parts c Hpc) as (Qc & Bc & _). destruct (plain_char_parts d Hpd) as (_ & _ & Bd).
  assert (TX : trim X = X).
  { apply trim_id.
    - intros c0 r E. rewrite EX in E. injection E as <- _. exact Hc1.
    - intros c0 E. rewrite Hl in E. injection E as <-. exact Hd1. }
  assert (HX : String.eqb X "" = false) by (rewrite EX; reflexivity).
  split.
  - unfold parseArrayField. rewrite TX, HX. simpl orb. cbv iota zeta.
    rewrite (clean_plain X c t d EX Hl Hc1 Hd1 Qc Bc Bd), HX. apply Hread. reflexivity.
  - unfold parseArrayField. rewrite trim_bracketed.
    assert (HV : String.eqb ("[" ++ X ++ "]")%string "" = false) by reflexivity.
    rewrite HV. simpl orb. cbv iota zeta.
    rewrite clean_bracketed, TX, HX. apply Hread. reflexivity.
Qed.


Lemma js_num_nonneg_nominus : forall n, 0 <= n -> no_char "-" (js_num_string n) = true.
Proof.
  intros n Hn. destruct (js_num_string_shape n) as (sign & digits & E & Hs & Hneg & _ & _ & Hd).
  destruct Hs as [-> | ->]; [|specialize (Hneg eq_refl); lia].
  rewrite E. simpl. apply (str_forallb_impl is_dec_digit); [|exact Hd].
  intros c Hc. rewrite (dec_digit_neq c "-" Hc eq_refl). reflexivity.
Qed.





(** parseTask, PreferredPhases: a cell whose trimmed text starts with [-]
    (a negative phase, or a list beginning with one) gives no phase at all:
    the text is split at [-], the empty first piece reads as NaN, and the
    range loop never runs. *)
Theorem parsePreferredPhases_leading_minus : forall raw,
  starts_with "-" (trim raw) = true -> parsePreferredPhases raw = [].
Proof.
  intros raw H. unfold parsePreferredPhases.
  destruct (String.eqb_spec raw "") as [->|_]; [reflexivity|].
  destruct (trim raw) as [|c r] eqn:E; [discriminate|]. simpl in H.
  apply Ascii.eqb_eq in H. subst c.
  assert (Hi : js_includes "-" (String "-" r) = true) by (destruct r; reflexivity). rewrite Hi.
  simpl js_split. simpl map. rewrite trim_empty. reflexivity.
Qed.

(** The two ways of naming a file's entity type, [detectEntityType] and the
    one inlined in [parseFile], give different answers exactly when the
    name mentions neither client nor worker, and mentions employee or does
    not mention task. *)
Theorem entity_type_detectors_disagree : forall name,
  detectEntityType name <> fileParser_entityType name <->
  js_includes "client" name = false /\ js_includes "worker" name = false /\
  (js_includes "employee" name = true \/ js_includes "task" name = false).
Proof.
  intros name. unfold detectEntityType, fileParser_entityType.
  destruct (js_includes "client" name), (js_includes "worker" name),
    (js_includes "employee" name), (js_includes "task" name); simpl;
    split; intros H; try discriminate;
    repeat match goal with
           | H : _ /\ _ |- _ => destruct H
           | H : _ \/ _ |- _ => destruct H
           end; try discriminate; try (exfalso; apply H; reflexivity);
    try (repeat split; auto; fail); try (intros E; discriminate E).
Qed.

Lemma csv_loop_escaped : forall f rest cur acc,
  csv_loop (csv_escape f ++ rest)%string true cur acc = csv_loop rest true (cur ++ f)%string acc.
Proof.
  induction f as [|c f IH]; intros rest cur acc.
  - simpl. rewrite str_app_nil_r. reflexivity.
  - simpl. destruct (Ascii.eqb_spec c dquote) as [->|Hc].
    + simpl. rewrite IH, str_app_assoc. reflexivity.
    + simpl. destruct (Ascii.eqb_spec c dquote) as [|_]; [contradiction|].
      rewrite andb_false_r. simpl. rewrite IH, str_app_assoc. reflexivity.
Qed.

Lemma csv_loop_open : forall x cur acc,
  csv_loop (String dquote x) false cur acc = csv_loop x true cur acc.
Proof. intros [|c x] cur acc; reflexivity. Qed.

Lemma csv_loop_quoted : forall fs f acc,
  csv_loop (String.concat "," (map csv_quote (f :: fs))) false "" acc = acc ++ f :: fs.
Proof.
  induction fs as [|g fs IH]; intros f acc.
  - change (String.concat "," (map csv_quote [f])) with (csv_quote f).
    unfold csv_quote. rewrite csv_loop_open, csv_loop_escaped. reflexivity.
  - change (String.concat "," (map csv_quote (f :: g :: fs)))
      with (csv_quote f ++ String "," (String.concat "," (map csv_quote (g :: fs))))%string.
    unfold csv_quote at 1. cbn [append]. rewrite csv_loop_open, str_app_assoc, csv_loop_escaped.
    cbn [append csv_loop]. simpl Ascii.eqb. cbv iota.
    cbn [andb negb]. rewrite (IH g (acc ++ [f])). rewrite <- app_assoc. reflexivity.
Qed.

Lemma parseCSVLine_quoted : forall fs, fs <> [] ->
  parseCSVLine (String.concat "," (map csv_quote fs)) = fs.
Proof.
  intros [|f fs] H; [contradiction|]. unfold parseCSVLine. apply csv_loop_quoted.
Qed.

(** parseCSVLine reads back any non-empty list of fields written with every
    field quoted and each inner quote doubled: commas and quotes inside a
    field survive. *)
Theorem parseCSVLine_quoted_round_trip : forall fs, fs <> [] ->
  parseCSVLine (String.concat "," (map csv_quote fs)) = fs.
Proof.
  intros [|f fs] H; [contradiction|]. apply parseCSVLine_quoted; discriminate.
Qed.

Lemma csv_loop_plain : forall s cur acc, no_char dquote s = true ->
  csv_loop s false cur acc =
  acc ++ match js_split "," s with x :: xs => (cur ++ x)%string :: xs | [] => [cur] end.
Proof.
  induction s as [|c s IH]; intros cur acc H.
  - simpl. rewrite str_app_nil_r. reflexivity.
  - unfold no_char in H. simpl in H. apply andb_prop in H as [Hc Hs].
    apply negb_true_iff in Hc. simpl. rewrite Hc.
    destruct (Ascii.eqb_spec c ",") as [->|Hcomma]; simpl.
    + rewrite IH by exact Hs. rewrite <- app_assoc.
      destruct (js_split "," s) eqn:E; [exfalso; exact (js_split_nonnil _ _ E)|].
      simpl. rewrite str_app_nil_r. reflexivity.
    + rewrite IH by exact Hs.
      destruct (js_split "," s) eqn:E; [exfalso; exact (js_split_nonnil _ _ E)|].
      rewrite str_app_assoc. reflexivity.
Qed.

(** On a line with no double quote, parseCSVLine is [line.split(',')]. *)
Theorem parseCSVLine_unquoted : forall line, no_char dquote line = true ->
  parseCSVLine line = js_split "," line.
Proof.
  intros line H. unfold parseCSVLine. rewrite csv_loop_plain by exact H.
  destruct (js_split "," line) eqn:E; [exfalso; exact (js_split_nonnil _ _ E)|].
  reflexivity.
Qed.

Lemma obj_get_map_other : forall o k k' v, k' <> k ->
  obj_get (map (fun kv => if String.eqb (fst kv) k' then (k', v) else kv) o) k = obj_get o k.
Proof.
  induction o as [|[k0 v0] o IH]; intros k k' v Hk; [reflexivity|]. simpl.
  destruct (String.eqb_spec k0 k') as [->|_]; simpl.
  - destruct (String.eqb_spec k' k) as [|_]; [contradiction|]. apply IH, Hk.
  - rewrite IH by exact Hk. reflexivity.
Qed.

Lemma obj_get_set : forall o k k' v, k <> "__proto__" ->
  obj_get (obj_set o k' v) k = if String.eqb k' k then Some v else obj_get o k.
Proof.
  intros o k k' v Hp. unfold obj_set.
  destruct (String.eqb_spec k' "__proto__") as [->|_].
  { destruct (String.eqb_spec "__proto__" k) as [E|_]; [congruence|reflexivity]. }
  induction o as [|[k0 v0] o IH]; [reflexivity|]. simpl.
  destruct (String.eqb_spec k0 k') as [->|Hne]; simpl.
  - destruct (String.eqb_spec k' k) as [|Hk]; [reflexivity|]. apply obj_get_map_other, Hk.
  - destruct (existsb (fun kv => String.eqb (fst kv) k') o); simpl;
      destruct (String.eqb_spec k0 k) as [->|_]; destruct (String.eqb_spec k' k) as [->|_];
      try congruence; try reflexivity; exact IH.
Qed.

Lemma csv_cell : forall values i,
  match nth_error values i with
  | Some s => if String.eqb s EmptyString then EmptyString else trim s
  | None => EmptyString
  end = trim (nth i values "").
Proof.
  intros values i. destruct (nth_error values i) as [s|] eqn:E.
  - rewrite (nth_error_nth _ _ _ E). destruct (String.eqb_spec s "") as [->|_]; reflexivity.
  - apply nth_error_None in E. rewrite nth_overflow by exact E. reflexivity.
Qed.

Lemma csv_row_from_get : forall values headers i row k, k <> "__proto__" ->
  obj_get (csv_row_from values i headers row) k =
  match last_match k headers i with
  | Some j => Some (trim (nth j values ""))
  | None => obj_get row k
  end.
Proof.
  intros values headers. induction headers as [|h hs IH]; intros i row k Hk; [reflexivity|].
  simpl. rewrite IH by exact Hk. rewrite csv_cell.
  destruct (last_match k hs (S i)); [reflexivity|].
  rewrite obj_get_set by exact Hk. destruct (String.eqb (trim h) k); reflexivity.
Qed.

(** In a row object built by parseCSV, the value under a key (other than
    [__proto__]) is the trimmed cell of the last header whose trimmed text
    is that key, or [''] when the line has no such cell; a key no header
    names is absent. *)
Theorem csv_row_lookup : forall headers values k, k <> "__proto__" ->
  obj_get (csv_row headers values) k =
  option_map (fun j => trim (nth j values "")) (last_match k headers 0).
Proof.
  intros headers values k Hk. unfold csv_row. rewrite csv_row_from_get by exact Hk.
  destruct (last_match k headers 0); reflexivity.
Qed.

Lemma csv_row_lookup_witness :
  ("id" <> "__proto__") /\
  obj_get (csv_row [" id"; "name"; "id "] [" C1 "; "Acme"; "C2"]) "id" = Some "C2".
Proof.
  split; [discriminate|].
  exact (csv_row_lookup [" id"; "name"; "id "] [" C1 "; "Acme"; "C2"] "id" ltac:(discriminate)).
Defined.

Lemma no_char_escape : forall c f, c <> dquote -> no_char c f = true -> no_char c (csv_escape f) = true.
Proof.
  intros c f Hc. unfold no_char. induction f as [|d f IH]; intros H; [reflexivity|].
  cbn [str_forallb] in H. apply andb_prop in H as [Hd Hf]. cbn [csv_escape].
  assert (Hq : Ascii.eqb dquote c = false) by (destruct (Ascii.eqb_spec dquote c); congruence).
  destruct (Ascii.eqb_spec d dquote) as [->|_]; cbn [str_forallb];
    rewrite ?Hq, ?Hd, IH by exact Hf; reflexivity.
Qed.

Lemma no_char_concat : forall c sep xs, no_char c sep = true ->
  Forall (fun x => no_char c x = true) xs -> no_char c (String.concat sep xs) = true.
Proof.
  intros c sep xs Hs H. induction H as [|x xs Hx Hxs IH]; [reflexivity|].
  destruct xs as [|y ys]; [exact Hx|].
  change (String.concat sep (x :: y :: ys)) with (x ++ sep ++ String.concat sep (y :: ys))%string.
  unfold no_char in *. rewrite !str_forallb_app, Hx, Hs, IH. reflexivity.
Qed.

Lemma csv_line_no_newline : forall fs, Forall (fun f => no_char newline f = true) fs ->
  no_char newline (csv_line fs) = true.
Proof.
  intros fs H. unfold csv_line. apply no_char_concat; [reflexivity|].
  apply Forall_map. eapply Forall_impl; [|exact H]. intros f Hf.
  unfold csv_quote, no_char. simpl. rewrite str_forallb_app.
  fold (no_char newline (csv_escape f)). rewrite no_char_escape by (discriminate || exact Hf).
  reflexivity.
Qed.

Lemma csv_line_not_blank : forall fs, fs <> [] -> String.eqb (trim (csv_line fs)) "" = false.
Proof.
  intros [|f fs] H; [contradiction|]. unfold csv_line. simpl map.
  destruct (concat_cons_prefix "," (csv_quote f) (map csv_quote fs)) as [r ->].
  assert (Hs : is_js_space dquote = false) by reflexivity.
  unfold csv_quote, trim. cbn [append trim_start]. rewrite Hs, trim_end_cons, Hs, andb_false_r.
  reflexivity.
Qed.

Lemma filter_nonempty_id_trim : forall l,
  Forall (fun s => String.eqb (trim s) "" = false) l ->
  filter (fun line => negb (String.eqb (trim line) EmptyString)) l = l.
Proof.
  intros l H. induction H as [|x l Hx _ IH]; [reflexivity|]. simpl. rewrite Hx. simpl. rewrite IH. reflexivity.
Qed.

(** parseCSV reads back a table written with every field quoted: each data
    line gives the row object that csv_row builds from the header fields and
    that line's fields, when no field holds a line feed. *)
Theorem parseCSV_quoted_table : forall hs rows,
  hs <> [] -> rows <> [] -> Forall (fun r => r <> []) rows ->
  Forall (fun f => no_char newline f = true) (hs ++ concat rows) ->
  parseCSV (String.concat (String newline "") (map csv_line (hs :: rows))) =
  map (csv_row hs) rows.
Proof.
  intros hs rows Hh Hr Hne Hnl.
  apply Forall_app in Hnl as [Hnh Hnr].
  assert (Hrows : Forall (fun r => no_char newline (csv_line r) = true) rows).
  { apply Forall_forall. intros r Hin. apply csv_line_no_newline.
    rewrite Forall_forall in Hnr |- *. intros f Hf. apply Hnr, in_concat. exists r. split; assumption. }
  assert (Hlines : filter (fun line => negb (String.eqb (trim line) EmptyString))
            (js_split "010"%char (String.concat (String newline "") (map csv_line (hs :: rows))))
          = map csv_line (hs :: rows)).
  { change "010"%char with newline. simpl map. rewrite js_split_concat.
    2: reflexivity.
    2: apply csv_line_no_newline, Hnh.
    2: apply Forall_map, Hrows.
    rewrite map_map. cbn [map]. apply filter_nonempty_id_trim. constructor.
    - apply csv_line_not_blank, Hh.
    - apply Forall_forall. intros l Hin. apply in_map_iff in Hin as (r & <- & Hin).
      rewrite Forall_forall in Hne. apply csv_line_not_blank, Hne, Hin. }
  unfold parseCSV. rewrite Hlines.
  destruct rows as [|r rs]; [contradiction|]. cbn [map length nth tl]. cbv zeta.
  assert (Hlen : Nat.ltb (S (S (length (map csv_line rs)))) 2 = false) by reflexivity.
  rewrite Hlen.
  assert (Hhd : parseCSVLine (csv_line hs) = hs) by (apply parseCSVLine_quoted, Hh).
  rewrite Hhd. rewrite Forall_forall in Hne.
  assert (Hrow : forall r', In r' (r :: rs) -> csv_row hs (parseCSVLine (csv_line r')) = csv_row hs r').
  { intros r' Hin. unfold csv_line. rewrite parseCSVLine_quoted by (apply Hne, Hin).
    reflexivity. }
  f_equal; [apply Hrow; left; reflexivity|].
  rewrite map_map. apply map_ext_in. intros r' Hin. apply Hrow. right. exact Hin.
Qed.

(** [parseInt] reads an integer written in decimal, whatever text follows it
    that cannot continue the number (a decimal point, a comma, a letter
    outside a..z, A..Z): the sign and digits are read, the rest ignored. *)
Theorem parseInt_reads_number : forall n rest,
  Z.abs n <= 2 ^ 53 -> number_boundary rest = true ->
  parseInt (js_num_string n ++ rest)%string = Some n.
Proof. intros n rest _ Hr. apply parseInt_num, Hr. Qed.

Lemma parseInt_reads_number_witness :
  Z.abs (-12) <= 2 ^ 53 /\ number_boundary ".5" = true /\
  parseInt ("-12" ++ ".5")%string = Some (-12).
Proof.
  split; [lia|]. split; [reflexivity|].
  exact (parseInt_reads_number (-12) ".5" ltac:(lia) eq_refl).
Defined.

Lemma parseNumberArrayField_round_trip_witness :
  Forall (fun n => Z.abs n <= 2 ^ 53) [3; -12; 0] /\
  parseNumberArrayField "3, -12, 0" = [3; -12; 0] /\
  parseNumberArrayField "[3, -12, 0]" = [3; -12; 0].
Proof.
  assert (H : Forall (fun n => Z.abs n <= 2 ^ 53) [3; -12; 0]) by (repeat constructor; lia).
  split; [exact H|]. exact (parseNumberArrayField_round_trip [3; -12; 0] H).
Defined.

Lemma parseArrayField_plain_round_trip_witness :
  forallb plain_item ["python"; "data analysis"] = true /\
  parseArrayField "python, data analysis" = ["python"; "data analysis"] /\
  parseArrayField "[python, data analysis]" = ["python"; "data analysis"].
Proof.
  split; [reflexivity|].
  exact (parseArrayField_plain_round_trip ["python"; "data analysis"] eq_refl).
Defined.



Lemma parsePreferredPhases_leading_minus_witness :
  starts_with "-" (trim " -2, 3") = true /\ parsePreferredPhases " -2, 3" = [].
Proof.
  split; [reflexivity|]. exact (parsePreferredPhases_leading_minus " -2, 3" eq_refl).
Defined.

Lemma parseCSVLine_quoted_round_trip_witness :
  ["Acme, Inc"; String dquote "Q"; ""] <> [] /\
  parseCSVLine (String.concat "," (map csv_quote ["Acme, Inc"; String dquote "Q"; ""]))
    = ["Acme, Inc"; String dquote "Q"; ""].
Proof.
  split; [discriminate|].
  apply parseCSVLine_quoted_round_trip. discriminate.
Defined.

Lemma parseCSVLine_unquoted_witness :
  no_char dquote "C1, Acme,,3" = true /\ parseCSVLine "C1, Acme,,3" = ["C1"; " Acme"; ""; "3"].
Proof.
  split; [reflexivity|]. exact (parseCSVLine_unquoted "C1, Acme,,3" eq_refl).
Defined.

Lemma parseCSV_quoted_table_witness :
  let hs := ["ClientID"; "ClientName"] in
  let rows := [["C1"; "Acme, Inc"]; ["C2"; String dquote "Q"]] in
  hs <> [] /\ rows <> [] /\ Forall (fun r => r <> []) rows /\
  Forall (fun f => no_char newline f = true) (hs ++ concat rows) /\
  parseCSV (String.concat (String newline "") (map csv_line (hs :: rows))) =
  map (csv_row hs) rows.
Proof.
  intros hs rows.
  assert (H1 : hs <> []) by discriminate. assert (H2 : rows <> []) by discriminate.
  assert (H3 : Forall (fun r => r <> []) rows) by (repeat constructor; discriminate).
  assert (H4 : Forall (fun f => no_char newline f = true) (hs ++ concat rows))
    by (repeat constructor).
  split; [exact H1|]. split; [exact H2|]. split; [exact H3|]. split; [exact H4|].
  exact (parseCSV_quoted_table hs rows H1 H2 H3 H4).
Defined.

Lemma trim_end_idem : forall s, trim_end (trim_end s) = trim_end s.
Proof.
  induction s as [|c r IH]; [reflexivity|]. rewrite trim_end_cons.
  destruct (String.eqb (trim_end r) "" && is_js_space c) eqn:E; [reflexivity|].
  rewrite trim_end_cons, IH, E. reflexivity.
Qed.

Lemma trim_start_head : forall s c r, trim_start s = String c r -> is_js_space c = false.
Proof.
  induction s as [|d s IH]; intros c r H; [discriminate|]. simpl in H.
  destruct (is_js_space d) eqn:E; [exact (IH c r H)|]. injection H as <- _. exact E.
Qed.

Lemma trim_idem : forall s, trim (trim s) = trim s.
Proof.
  intros s. unfold trim at 2 3. destruct (trim_start s) as [|c r] eqn:E; [reflexivity|].
  pose proof (trim_start_head s c r E) as Hc.
  rewrite trim_end_cons, Hc, andb_false_r. unfold trim. cbn [trim_start]. rewrite Hc.
  rewrite <- (trim_end_idem r) at 2. rewrite trim_end_cons, trim_end_idem, Hc, andb_false_r.
  reflexivity.
Qed.

Lemma str_forallb_trim_start : forall p s, str_forallb p s = true -> str_forallb p (trim_start s) = true.
Proof.
  intros p. induction s as [|c s IH]; intros H; [reflexivity|]. simpl in H |- *.
  apply andb_prop in H as [Hc Hs]. destruct (is_js_space c); [apply IH, Hs|]. simpl. rewrite Hc, Hs. reflexivity.
Qed.

Lemma str_forallb_trim_end : forall p s, str_forallb p s = true -> str_forallb p (trim_end s) = true.
Proof.
  intros p. induction s as [|c s IH]; intros H; [reflexivity|]. cbn [str_forallb] in H.
  apply andb_prop in H as [Hc Hs]. rewrite trim_end_cons.
  destruct (String.eqb (trim_end s) "" && is_js_space c); [reflexivity|].
  cbn [str_forallb]. rewrite Hc, IH by exact Hs. reflexivity.
Qed.

Lemma no_char_trim : forall c s, no_char c s = true -> no_char c (trim s) = true.
Proof. intros c s H. apply str_forallb_trim_end, str_forallb_trim_start, H. Qed.

Lemma js_split_no_sep : forall sep s, Forall (fun x => no_char sep x = true) (js_split sep s).
Proof.
  intros sep. induction s as [|c s IH]; simpl; [constructor; [reflexivity|constructor]|].
  destruct (Ascii.eqb_spec c sep) as [->|Hc]; [constructor; [reflexivity|exact IH]|].
  destruct (js_split sep s) as [|x xs]; [constructor; [|constructor]|].
  - unfold no_char. simpl. destruct (Ascii.eqb_spec c sep); [contradiction|reflexivity].
  - inversion IH as [|? ? Hx Hxs]; subst. constructor; [|exact Hxs].
    unfold no_char in *. simpl. rewrite Hx. destruct (Ascii.eqb_spec c sep); [contradiction|reflexivity].
Qed.

(** A list cell (Skills, RequiredSkills, RequestedTaskIDs) gives only
    trimmed, non-empty items without a comma, and a list of such items
    written with [', '] between them is read back unchanged. *)
Theorem parse_list_cell_items : forall raw,
  Forall (fun s => s <> "" /\ trim s = s /\ no_char "," s = true) (parse_list_cell raw) /\
  (forall items, Forall (fun s => s <> "" /\ trim s = s /\ no_char "," s = true) items ->
   parse_list_cell (String.concat ", " items) = items).
Proof.
  split.
  - unfold parse_list_cell. destruct (String.eqb raw ""); [constructor|].
    apply Forall_forall. intros s Hs. apply filter_In in Hs as [Hs Hne].
    apply in_map_iff in Hs as (x & <- & Hx).
    destruct (String.eqb_spec (trim x) "") as [|Hn]; [discriminate|].
    split; [exact Hn|]. split; [apply trim_idem|]. apply no_char_trim.
    pose proof (js_split_no_sep "," raw) as H. rewrite Forall_forall in H. apply H, Hx.
  - intros [|p ps] H; [reflexivity|]. unfold parse_list_cell.
    inversion H as [|? ? [Hp _] _]; subst.
    destruct (concat_cons_prefix ", " p ps) as [r Er].
    assert (Hne : String.eqb (String.concat ", " (p :: ps)) "" = false).
    { rewrite Er. destruct p; [contradiction|reflexivity]. }
    rewrite Hne. rewrite split_trim_concat.
    + apply filter_nonempty_id. eapply Forall_impl; [|exact H]. intros s [Hs _]. exact Hs.
    + eapply Forall_impl; [|exact H]. intros s (_ & T & N). split; assumption.
Qed.

Lemma remove_brackets_app : forall a b,
  remove_brackets (a ++ b)%string = (remove_brackets a ++ remove_brackets b)%string.
Proof.
  induction a as [|c a IH]; intros b; [reflexivity|]. simpl. rewrite IH.
  destruct (Ascii.eqb c "[" || Ascii.eqb c "]"); reflexivity.
Qed.

Lemma remove_brackets_id : forall s, no_char "[" s = true -> no_char "]" s = true ->
  remove_brackets s = s.
Proof.
  induction s as [|c s IH]; intros H1 H2; [reflexivity|]. unfold no_char in H1, H2.
  cbn [str_forallb] in H1, H2. apply andb_prop in H1 as [C1 S1]. apply andb_prop in H2 as [C2 S2].
  apply negb_true_iff in C1, C2. cbn [remove_brackets]. rewrite C1, C2. simpl. rewrite IH; auto.
Qed.

Lemma js_includes_char_absent : forall c s, no_char c s = true -> js_includes (String c "") s = false.
Proof.
  intros c. induction s as [|d s IH]; intros H; [reflexivity|]. unfold no_char in H.
  cbn [str_forallb] in H. apply andb_prop in H as [Hd Hs]. apply negb_true_iff in Hd.
  cbn [js_includes String.prefix]. rewrite IH by exact Hs.
  destruct (ascii_dec c d) as [->|_]; [rewrite Ascii.eqb_refl in Hd; discriminate|reflexivity].
Qed.

Lemma num_text_no_char : forall x ns, is_dec_digit x = false -> x <> "-"%char -> x <> ","%char ->
  x <> " "%char -> no_char x (String.concat ", " (map js_num_string ns)) = true.
Proof.
  intros x ns Hd Hm Hc Hs. apply no_char_concat.
  - unfold no_char. cbn [str_forallb].
    destruct (Ascii.eqb_spec "," x), (Ascii.eqb_spec " " x); try congruence; reflexivity.
  - apply Forall_forall. intros q Hq. apply in_map_iff in Hq as (n & <- & _).
    destruct (js_num_string_props n) as (_ & N & _). apply N; assumption.
Qed.

Lemma parse_int_list_numbers : forall ns, Forall (fun n => Z.abs n <= 2 ^ 53) ns ->
  parse_int_list (String.concat ", " (map js_num_string ns)) = ns /\
  parse_int_list ("[" ++ String.concat ", " (map js_num_string ns) ++ "]")%string = ns.
Proof.
  intros ns _.
  set (X := String.concat ", " (map js_num_string ns)).
  assert (HX : remove_brackets X = X).
  { apply remove_brackets_id; apply num_text_no_char; (reflexivity || discriminate). }
  assert (HW : remove_brackets ("[" ++ X ++ "]")%string = X).
  { rewrite !remove_brackets_app, HX. cbn. apply str_app_nil_r. }
  assert (Hread : parse_int_list X = ns).
  { unfold parse_int_list. rewrite HX. destruct ns as [|n ns]; [reflexivity|].
    rewrite <- (read_numbers n ns). unfold X. generalize (js_split "," (String.concat ", " (map js_num_string (n :: ns)))).
    induction l as [|y l IH]; [reflexivity|]. simpl. rewrite IH. reflexivity. }
  split; [exact Hread|]. unfold parse_int_list in *. rewrite HW. rewrite HX in Hread. exact Hread.
Qed.

(** A string AvailableSlots cell (and the list form of PreferredPhases) reads
    back a list of integers written with [', '] between them, with or
    without brackets. *)
Theorem parse_int_list_round_trip : forall ns, Forall (fun n => Z.abs n <= 2 ^ 53) ns ->
  parse_int_list (String.concat ", " (map js_num_string ns)) = ns /\
  parse_int_list ("[" ++ String.concat ", " (map js_num_string ns) ++ "]")%string = ns.
Proof. exact parse_int_list_numbers. Qed.

(** A bracketed PreferredPhases list of non-negative integers is read back
    unchanged: without a [-] the text takes the list branch. *)
Theorem parsePreferredPhases_list : forall ns, Forall (fun n => 0 <= n <= 2 ^ 53) ns ->
  parsePreferredPhases ("[" ++ String.concat ", " (map js_num_string ns) ++ "]")%string = ns.
Proof.
  intros ns H. unfold parsePreferredPhases. rewrite trim_bracketed.
  assert (HV : String.eqb ("[" ++ String.concat ", " (map js_num_string ns) ++ "]")%string "" = false)
    by reflexivity.
  rewrite HV.
  assert (Hm : no_char "-" ("[" ++ String.concat ", " (map js_num_string ns) ++ "]")%string = true).
  { unfold no_char. rewrite !str_forallb_app. fold (no_char "-" (String.concat ", " (map js_num_string ns))).
    rewrite no_char_concat; [reflexivity|reflexivity|].
    apply Forall_forall. intros q Hq. apply in_map_iff in Hq as (n & <- & Hn).
    rewrite Forall_forall in H. apply js_num_nonneg_nominus, H, Hn. }
  rewrite (js_includes_char_absent _ _ Hm).
  apply parse_int_list_numbers. eapply Forall_impl; [|exact H]. intros n Hn.
  simpl in Hn. lia.
Qed.

Lemma obj_get_set_any : forall o k k' v,
  obj_get (obj_set o k' v) k =
  if String.eqb k' "__proto__" then obj_get o k
  else if String.eqb k' k then Some v else obj_get o k.
Proof.
  intros o k k' v. destruct (String.eqb_spec k' "__proto__") as [->|Hp].
  - reflexivity.
  - destruct (String.eqb_spec k "__proto__") as [->|Hk].
    + unfold obj_set. destruct (String.eqb_spec k' "__proto__") as [|_]; [contradiction|].
      destruct (String.eqb_spec k' "__proto__") as [|_]; [contradiction|].
      destruct (existsb (fun kv => String.eqb (fst kv) k') o) eqn:Ex.
      * rewrite obj_get_map_other by exact Hp. reflexivity.
      * induction o as [|[k0 v0] o IH]; simpl; [destruct (String.eqb_spec k' "__proto__"); [contradiction|reflexivity]|].
        simpl in Ex. apply orb_false_iff in Ex as [_ Ex]. rewrite IH by exact Ex. reflexivity.
    + rewrite obj_get_set by exact Hk. reflexivity.
Qed.

Lemma mapColumns_step_get : forall headers m std vars k,
  obj_get (mapColumns_step headers m (std, vars)) k =
  match find (header_matches vars) headers with
  | Some f => if String.eqb f "" || String.eqb f "__proto__" then obj_get m k
              else if String.eqb f k then Some std else obj_get m k
  | None => obj_get m k
  end.
Proof.
  intros headers m std vars k. unfold mapColumns_step.
  destruct (find (header_matches vars) headers) as [f|]; [|reflexivity].
  destruct (String.eqb f ""); [reflexivity|]. simpl. apply obj_get_set_any.
Qed.

Lemma find_eq_pred : forall (p : string -> bool) std headers,
  (forall h, In h headers -> p h = String.eqb h std) ->
  find p headers = if existsb (String.eqb std) headers then Some std else None.
Proof.
  intros p std. induction headers as [|h hs IH]; intros H; [reflexivity|]. simpl.
  rewrite (H h (or_introl eq_refl)). destruct (String.eqb_spec h std) as [->|Hne].
  - rewrite String.eqb_refl. reflexivity.
  - destruct (String.eqb_spec std h) as [E|_]; [congruence|]. simpl.
    apply IH. intros x Hx. apply H. right. exact Hx.
Qed.

Lemma find_ext_in : forall (p q : string -> bool) l,
  (forall x, In x l -> p x = q x) -> find p l = find q l.
Proof.
  intros p q. induction l as [|x l IH]; intros H; [reflexivity|]. simpl.
  rewrite (H x (or_introl eq_refl)), IH; [reflexivity|]. intros y Hy. apply H. right. exact Hy.
Qed.

Lemma columns_own_variations : forall et, In et ["clients"; "workers"; "tasks"] ->
  own_variations_only (COLUMN_MAPPINGS et) = true /\
  forallb (fun std => negb (String.eqb std "") && negb (String.eqb std "__proto__"))
    (map fst (COLUMN_MAPPINGS et)) = true.
Proof.
  intros et H. destruct H as [<-|[<-|[<-|[]]]]; split; vm_compute; reflexivity.
Qed.

Lemma fold_standard_get : forall headers names cols m s,
  (forall std vars, In (std, vars) cols ->
     find (header_matches vars) headers = if existsb (String.eqb std) headers then Some std else None) ->
  forallb (fun std => negb (String.eqb std "") && negb (String.eqb std "__proto__")) (map fst cols) = true ->
  names = map fst cols ->
  obj_get (fold_left (mapColumns_step headers) cols m) s =
  if existsb (String.eqb s) names && existsb (String.eqb s) headers then Some s else obj_get m s.
Proof.
  intros headers names cols. revert names. induction cols as [|[std vars] cols IH];
    intros names m s Hf Hn ->; [reflexivity|].
  simpl in Hn. apply andb_prop in Hn as [Hstd Hn]. apply andb_prop in Hstd as [H1 H2].
  apply negb_true_iff in H1, H2. cbn [fold_left].
  rewrite (IH (map fst cols)); [|intros; apply Hf; right; assumption|exact Hn|reflexivity].
  rewrite mapColumns_step_get, (Hf std vars (or_introl eq_refl)).
  cbn [map existsb fst].
  destruct (String.eqb_spec s std) as [->|Hs].
  - simpl.
    destruct (existsb (String.eqb std) headers) eqn:E.
    + rewrite H1, H2. simpl. rewrite String.eqb_refl.
      destruct (existsb (String.eqb std) (map fst cols)); reflexivity.
    + rewrite andb_false_r. reflexivity.
  - simpl orb.
    destruct (existsb (String.eqb std) headers); [|reflexivity].
    rewrite H1, H2. simpl. destruct (String.eqb_spec std s) as [E|_]; [congruence|reflexivity].
Qed.

(** A file whose headers are standard column names of its entity type, in
    any order, has each of them mapped to itself. *)
Theorem mapColumns_standard_headers : forall et headers s,
  In et ["clients"; "workers"; "tasks"] ->
  (forall h, In h headers -> In h (map fst (COLUMN_MAPPINGS et))) ->
  In s headers ->
  obj_get (mapColumns headers et) s = Some s.
Proof.
  intros et headers s Het Hsub Hs.
  destruct (columns_own_variations et Het) as [Hown Hnames].
  unfold mapColumns.
  rewrite (fold_standard_get headers (map fst (COLUMN_MAPPINGS et)) (COLUMN_MAPPINGS et) [] s).
  - assert (E1 : existsb (String.eqb s) (map fst (COLUMN_MAPPINGS et)) = true).
    { apply existsb_exists. exists s. split; [apply Hsub, Hs|apply String.eqb_refl]. }
    assert (E2 : existsb (String.eqb s) headers = true).
    { apply existsb_exists. exists s. split; [exact Hs|apply String.eqb_refl]. }
    rewrite E1, E2. reflexivity.
  - intros std vars Hin. apply find_eq_pred. intros h Hh.
    unfold own_variations_only in Hown. rewrite forallb_forall in Hown.
    specialize (Hown _ Hin). rewrite forallb_forall in Hown.
    apply Bool.eqb_prop, (Hown h (Hsub h Hh)).
  - exact Hnames.
  - reflexivity.
Qed.

Lemma find_matches_in : forall vars headers h,
  find (header_matches vars) headers = Some h -> In h headers /\ header_matches vars h = true.
Proof. intros vars headers h H. apply find_some in H. exact H. Qed.

(** In a task file, a header whose key is [phases] matches both Duration and
    PreferredPhases; when no header names either column more precisely, the
    later PreferredPhases wins and no header is mapped to Duration. *)
Theorem tasks_phases_column : forall headers h,
  find (fun x => String.eqb (column_key x) "phases") headers = Some h ->
  Forall (fun x => ~ In (column_key x) ["duration"; "time"; "preferredphases"; "timeline"]) headers ->
  obj_get (mapColumns headers "tasks") h = Some "PreferredPhases" /\
  (forall k, obj_get (mapColumns headers "tasks") k <> Some "Duration").
Proof.
  intros headers h Hh Hno. rewrite Forall_forall in Hno.
  assert (Hkey : column_key h = "phases").
  { apply find_some in Hh as [_ E]. apply String.eqb_eq, E. }
  assert (HD : find (header_matches ["duration"; "time"; "phases"]) headers = Some h).
  { rewrite <- Hh. apply find_ext_in. intros x Hx. specialize (Hno x Hx).
    unfold header_matches. cbn [existsb]. change (keep_lower_alnum "duration") with "duration".
    change (keep_lower_alnum "time") with "time". change (keep_lower_alnum "phases") with "phases".
    destruct (String.eqb_spec (column_key x) "duration") as [E|_]; [exfalso; apply Hno; rewrite E; left; reflexivity|].
    destruct (String.eqb_spec (column_key x) "time") as [E|_]; [exfalso; apply Hno; rewrite E; right; left; reflexivity|].
    simpl. apply orb_false_r. }
  assert (HP : find (header_matches ["preferred_phases"; "preferredphases"; "phases"; "timeline"]) headers = Some h).
  { rewrite <- Hh. apply find_ext_in. intros x Hx. specialize (Hno x Hx).
    unfold header_matches. cbn [existsb].
    change (keep_lower_alnum "preferred_phases") with "preferredphases".
    change (keep_lower_alnum "preferredphases") with "preferredphases".
    change (keep_lower_alnum "phases") with "phases". change (keep_lower_alnum "timeline") with "timeline".
    destruct (String.eqb_spec (column_key x) "preferredphases") as [E|_];
      [exfalso; apply Hno; rewrite E; right; right; left; reflexivity|].
    destruct (String.eqb_spec (column_key x) "timeline") as [E|_];
      [exfalso; apply Hno; rewrite E; right; right; right; left; reflexivity|].
    simpl. rewrite orb_false_r. reflexivity. }
  assert (HM : find (header_matches ["max_concurrent"; "maxconcurrent"; "concurrent"; "parallel"]) headers <> Some h).
  { intros E. apply find_matches_in in E as [_ E]. unfold header_matches in E. rewrite Hkey in E.
    vm_compute in E. discriminate E. }
  assert (Hne : String.eqb h "" || String.eqb h "__proto__" = false).
  { destruct (String.eqb_spec h "") as [->|_]; [discriminate Hkey|].
    destruct (String.eqb_spec h "__proto__") as [->|_]; [discriminate Hkey|reflexivity]. }
  unfold mapColumns. change (COLUMN_MAPPINGS "tasks") with tasks_columns. unfold tasks_columns.
  cbn [fold_left]. split.
  - rewrite mapColumns_step_get.
    destruct (find (header_matches ["max_concurrent"; "maxconcurrent"; "concurrent"; "parallel"]) headers)
      as [f|] eqn:EM.
    + destruct (String.eqb f "" || String.eqb f "__proto__").
      * rewrite mapColumns_step_get, HP, Hne, String.eqb_refl. reflexivity.
      * destruct (String.eqb_spec f h) as [->|_]; [contradiction|].
        rewrite mapColumns_step_get, HP, Hne, String.eqb_refl. reflexivity.
    + rewrite mapColumns_step_get, HP, Hne, String.eqb_refl. reflexivity.
  - intros k. rewrite !mapColumns_step_get. rewrite HP, HD, Hne.
    repeat match goal with
           | |- context [match ?e with Some _ => _ | None => _ end] =>
               lazymatch e with
               | Some _ => fail
               | _ => destruct e
               end
           | |- context [if ?b then _ else _] =>
               lazymatch b with
               | true => fail
               | false => fail
               | _ => destruct b
               end
           end; try discriminate; simpl; try discriminate.
Qed.

Lemma parse_list_cell_items_witness :
  Forall (fun s => s <> "" /\ trim s = s /\ no_char "," s = true) ["python"; "data analysis"] /\
  parse_list_cell "python, data analysis" = ["python"; "data analysis"].
Proof.
  assert (H : Forall (fun s => s <> "" /\ trim s = s /\ no_char "," s = true)
                ["python"; "data analysis"])
    by (repeat constructor; (discriminate || reflexivity)).
  split; [exact H|]. exact (proj2 (parse_list_cell_items "") _ H).
Defined.

Lemma parse_int_list_round_trip_witness :
  Forall (fun n => Z.abs n <= 2 ^ 53) [1; 3; -2] /\
  parse_int_list "1, 3, -2" = [1; 3; -2] /\ parse_int_list "[1, 3, -2]" = [1; 3; -2].
Proof.
  assert (H : Forall (fun n => Z.abs n <= 2 ^ 53) [1; 3; -2]) by (repeat constructor; lia).
  split; [exact H|]. exact (parse_int_list_round_trip _ H).
Defined.

Lemma parsePreferredPhases_list_witness :
  Forall (fun n => 0 <= n <= 2 ^ 53) [1; 2; 5] /\ parsePreferredPhases "[1, 2, 5]" = [1; 2; 5].
Proof.
  assert (H : Forall (fun n => 0 <= n <= 2 ^ 53) [1; 2; 5]) by (repeat constructor; lia).
  split; [exact H|]. exact (parsePreferredPhases_list _ H).
Defined.

Lemma mapColumns_standard_headers_witness :
  In "workers" ["clients"; "workers"; "tasks"] /\
  (forall h, In h ["Skills"; "WorkerID"] -> In h (map fst (COLUMN_MAPPINGS "workers"))) /\
  In "WorkerID" ["Skills"; "WorkerID"] /\
  obj_get (mapColumns ["Skills"; "WorkerID"] "workers") "WorkerID" = Some "WorkerID".
Proof.
  assert (H1 : In "workers" ["clients"; "workers"; "tasks"]) by (right; left; reflexivity).
  assert (H2 : forall h, In h ["Skills"; "WorkerID"] -> In h (map fst (COLUMN_MAPPINGS "workers"))).
  { intros h [<-|[<-|[]]]; vm_compute; auto 10. }
  assert (H3 : In "WorkerID" ["Skills"; "WorkerID"]) by (right; left; reflexivity).
  split; [exact H1|]. split; [exact H2|]. split; [exact H3|].
  exact (mapColumns_standard_headers _ _ _ H1 H2 H3).
Defined.

Lemma tasks_phases_column_witness :
  find (fun x => String.eqb (column_key x) "phases") ["TaskID"; "Phases"] = Some "Phases" /\
  Forall (fun x => ~ In (column_key x) ["duration"; "time"; "preferredphases"; "timeline"])
    ["TaskID"; "Phases"] /\
  obj_get (mapColumns ["TaskID"; "Phases"] "tasks") "Phases" = Some "PreferredPhases".
Proof.
  assert (H1 : find (fun x => String.eqb (column_key x) "phases") ["TaskID"; "Phases"] = Some "Phases")
    by reflexivity.
  assert (H2 : Forall (fun x => ~ In (column_key x) ["duration"; "time"; "preferredphases"; "timeline"])
                 ["TaskID"; "Phases"]).
  { repeat constructor; vm_compute; intros H; repeat destruct H as [H|H]; discriminate H || exact H. }
  split; [exact H1|]. split; [exact H2|].
  exact (proj1 (tasks_phases_column _ _ H1 H2)).
Defined.
